(** * MongoDB (>=3.3 <6.0) instrumentation: a shallow embedding

    The development follows the instrumentation module of the agent:
    the installation entry point ([module.exports]), the command-monitoring
    handlers [onStart] / [onEnd] with their table of active spans, and the
    per-call wrapper [wrapCollectionApi] of the collection API.

    JavaScript values are first-order data; numbers are exact rationals
    (rounding of doubles is not modelled); a string is a sequence of
    one-byte code units.  Objects that the code shares and mutates (spans)
    live in a store and are handled by reference. *)

From Stdlib Require Import QArith Ascii String.
From stdpp Require Import gmap strings list fin_maps.

Set Warnings "-register-all".

Local Open Scope string_scope.
Local Open Scope list_scope.

(** ** JavaScript values *)

(** Function objects.  [SpanEndThen sp cb] is the closure built at
    lines 156-159: it captures the span and the caller's callback. *)
Inductive Func :=
| UserFn (id : nat)
| SpanEndThen (span : nat) (cb : Func).

Inductive value :=
| VUndef
| VNull
| VBool (b : bool)
| VNum (n : Q)
| VStr (s : string)
| VObj (props : gmap string value)
| VFun (f : Func)
| VRef (r : nat).

(** [!v] is [negb (truthy v)]. *)
Definition truthy (v : value) : bool :=
  match v with
  | VUndef | VNull => false
  | VBool b => b
  | VNum n => negb (Qeq_bool n 0)
  | VStr s => negb (String.eqb s "")
  | VObj _ | VFun _ | VRef _ => true
  end.

(** [a || b] *)
Definition js_or (a b : value) : value := if truthy a then a else b.

(** [obj[key]]; only plain objects carry properties in this model. *)
Definition get_prop (obj : value) (key : string) : value :=
  match obj with
  | VObj props => default VUndef (props !! key)
  | _ => VUndef
  end.

(** ** Strings: [Array.prototype.join] and [String.prototype.split] *)

Fixpoint join (sep : string) (l : list string) : string :=
  match l with
  | [] => ""
  | x :: rest =>
      match rest with
      | [] => x
      | _ :: _ => x +:+ sep +:+ join sep rest
      end
  end.

(** Split on a one-character separator: [split_on c "a.b" = ["a"; "b"]],
    [split_on c "" = [""]]. *)
Fixpoint split_on (c : ascii) (s : string) : list string :=
  match s with
  | EmptyString => [EmptyString]
  | String a s' =>
      if Ascii.eqb a c then EmptyString :: split_on c s'
      else match split_on c s' with
           | [] => [String a EmptyString]
           | w :: ws => String a w :: ws
           end
  end.

(** ** The pattern [HOSTNAME_PORT_RE = /^(.+):(\d+)$/] *)

(** [.] matches any code unit but a line terminator. *)
Definition re_dot (c : ascii) : bool :=
  negb (Ascii.eqb c "010"%char || Ascii.eqb c "013"%char).

(** [\d] *)
Definition re_digit (c : ascii) : bool :=
  let n := nat_of_ascii c in (48 <=? n)%nat && (n <=? 57)%nat.

(** The ways a greedy [p+] can consume a prefix of [s], in the order the
    backtracking matcher tries them (longest first), each with the rest. *)
Fixpoint greedy_plus (p : ascii -> bool) (s : string) : list (string * string) :=
  match s with
  | EmptyString => []
  | String c s' =>
      if p c
      then map (fun mr => (String c (fst mr), snd mr)) (greedy_plus p s')
             ++ [(String c EmptyString, s')]
      else []
  end.

(** First alternative that leads to a match. *)
Fixpoint first_match {A B} (k : A -> option B) (alts : list A) : option B :=
  match alts with
  | [] => None
  | a :: alts' =>
      match k a with
      | Some b => Some b
      | None => first_match k alts'
      end
  end.

(** [HOSTNAME_PORT_RE.exec(s)]: [Some (match[1], match[2])] or [None]
    for [null].  [^] pins the match at index 0 and [$] at the end. *)
Definition HOSTNAME_PORT_RE_exec (s : string) : option (string * string) :=
  first_match
    (fun hr : string * string =>
       match snd hr with
       | String ":" r =>
           first_match
             (fun pr : string * string =>
                match snd pr with
                | EmptyString => Some (fst hr, fst pr)
                | String _ _ => None
                end)
             (greedy_plus re_digit r)
       | _ => None
       end)
    (greedy_plus re_dot s).

(** What the pattern says, without a matcher: [s] is [host], a colon and
    [port]; [host] is not empty and has no line terminator; [port] is a
    non-empty run of digits. *)
Fixpoint string_forall (p : ascii -> bool) (s : string) : bool :=
  match s with
  | EmptyString => true
  | String c s' => p c && string_forall p s'
  end.

Definition host_port (s host port : string) : Prop :=
  s = host +:+ ":" +:+ port /\
  host <> "" /\ string_forall re_dot host = true /\
  port <> "" /\ string_forall re_digit port = true.

(** ** [_get (obj, path)] (lines 39-48)

    The recursion is on the remaining path; [fuel] bounds the number of
    segments, the length of the path being always enough. *)
Fixpoint _get_fuel (fuel : nat) (obj : value) (path : string) : value :=
  match fuel with
  | O => obj
  | S fuel' =>
      if negb (truthy obj) || String.eqb path "" then obj
      else
        let parts := split_on "." path in
        let key := hd "" parts in
        _get_fuel fuel' (get_prop obj key) (join "." (tl parts))
  end.

Definition _get (obj : value) (path : string) : value :=
  _get_fuel (S (String.length path)) obj path.

(** ** Outcomes of calls: a normal completion or a thrown value *)

Inductive result (A : Type) :=
| Return (v : A)
| Throw (err : value).
Arguments Return {A} v.
Arguments Throw {A} err.

(** ** External collaborators

    The tracer ([agent._instrumentation.createSpan]), [getDBDestination]
    of [../context], the WHATWG [URL] constructor, [semver.satisfies] and
    the functions supplied by the user are not part of this module; the
    development is parametric in them. *)
Class Collaborators := {
  (** state of the tracer (sampling decisions, clock) *)
  Ins : Type;
  (** [createSpan name type subtype action {exitSpan}]: [None] for [null],
      [Some t] for a fresh span whose [_timer.start] is [t] *)
  createSpan : string -> string -> string -> string -> bool -> Ins -> Ins * option Q;
  (** destination objects *)
  Destination : Type;
  getDBDestination : string -> string -> Destination;
  (** [if (destination)]: whether a destination object is truthy *)
  destination_truthy : Destination -> bool;
  (** [new URL(address)]: [None] when it throws, else (hostname, port) *)
  new_URL : value -> option (string * string);
  semver_satisfies : string -> string -> bool;
  (** what a function of the user does when it is applied *)
  call_user : nat -> list value -> result value
}.

(** ** Data model *)

Record DbContext := { db_type : string; db_instance : string }.

(** A span, as far as this module observes it: the arguments it was
    created with, its start time, and the calls received so far.
    [ended] lists the argument of every [end] call, oldest first. *)
Record Span `{Collaborators} := mkSpan {
  span_name : string;
  span_type : string;
  span_subtype : string;
  span_action : string;
  span_exitSpan : bool;
  _timer_start : Q;
  _db : option DbContext;
  _destination : option Destination;
  ended : list (option Q)
}.

(** [CommandStartedEvent] *)
Record CommandStartedEvent := {
  address : value;
  connectionId : value;
  requestId : Z;
  databaseName : string;
  commandName : string;
  command : gmap string value
}.

(** What tells a [CommandSucceededEvent] from a [CommandFailedEvent]. *)
Inductive Outcome :=
| Succeeded (reply : value)
| Failed (failure : value).

(** [CommandSucceededEvent] / [CommandFailedEvent] *)
Record CommandEndEvent := {
  end_requestId : Z;
  duration : Q;
  outcome : Outcome
}.

Inductive LogLevel := Debug | Trace | Warn.

Record LogEntry := { log_level : LogLevel; log_format : string; log_args : list value }.

Inductive ConsoleEntry :=
| ConsoleEvent (event : CommandStartedEvent)
| ConsoleText (s : string).

(** The agent and the closure of [module.exports]: [activeSpans] maps a
    request id to (a reference to) its open span; [spans] is the store of
    the span objects handed out by the tracer, a reference being an index. *)
Record State `{Collaborators} := mkState {
  ins : Ins;
  activeSpans : gmap Z nat;
  spans : list Span;
  logger : list LogEntry;
  console : list ConsoleEntry
}.

Section Model.
Context `{Collaborators}.

Definition set_ins (i : Ins) (st : State) : State :=
  mkState _ i (activeSpans st) (spans st) (logger st) (console st).

Definition set_activeSpans (m : gmap Z nat) (st : State) : State :=
  mkState _ (ins st) m (spans st) (logger st) (console st).

Definition set_spans (l : list Span) (st : State) : State :=
  mkState _ (ins st) (activeSpans st) l (logger st) (console st).

Definition logger_log (lvl : LogLevel) (fmt : string) (args : list value) (st : State) : State :=
  mkState _ (ins st) (activeSpans st) (spans st)
    (logger st ++ [{| log_level := lvl; log_format := fmt; log_args := args |}])
    (console st).

Definition console_log (e : ConsoleEntry) (st : State) : State :=
  mkState _ (ins st) (activeSpans st) (spans st) (logger st) (console st ++ [e]).

(** *** Methods of a span, through its reference *)

Definition update_span (f : Span -> Span) (sp : nat) (st : State) : State :=
  set_spans (alter f sp (spans st)) st.

Definition with_db (ctx : DbContext) (s : Span) : Span :=
  mkSpan _ (span_name s) (span_type s) (span_subtype s) (span_action s) (span_exitSpan s)
    (_timer_start s) (Some ctx) (_destination s) (ended s).

Definition with_destination (d : Destination) (s : Span) : Span :=
  mkSpan _ (span_name s) (span_type s) (span_subtype s) (span_action s) (span_exitSpan s)
    (_timer_start s) (_db s) (Some d) (ended s).

Definition with_end (endTime : option Q) (s : Span) : Span :=
  mkSpan _ (span_name s) (span_type s) (span_subtype s) (span_action s) (span_exitSpan s)
    (_timer_start s) (_db s) (_destination s) (ended s ++ [endTime]).

Definition span_setDbContext (sp : nat) (ctx : DbContext) : State -> State :=
  update_span (with_db ctx) sp.

Definition span_setDestinationContext (sp : nat) (d : Destination) : State -> State :=
  update_span (with_destination d) sp.

(** [span.end(endTime)]; [None] when called without argument. *)
Definition span_end (sp : nat) (endTime : option Q) : State -> State :=
  update_span (with_end endTime) sp.

(** [ins.createSpan(name, type, subtype, action, { exitSpan })]: asks the
    tracer and, when it grants a span, allocates the object. *)
Definition ins_createSpan (name type subtype action : string) (exitSpan : bool)
    (st : State) : State * option nat :=
  match createSpan name type subtype action exitSpan (ins st) with
  | (i, None) => (set_ins i st, None)
  | (i, Some t) =>
      let sp := length (spans st) in
      (set_spans (spans st ++ [mkSpan _ name type subtype action exitSpan t None None []])
         (set_ins i st),
       Some sp)
  end.

(** *** Event strategy: [collectionFor], [onStart], [onEnd] (lines 174-227) *)

Definition collectionFor (event : CommandStartedEvent) : string :=
  match command event !! commandName event with
  | Some (VStr collection) => collection
  | _ => "$cmd"
  end.

Definition onStart (event : CommandStartedEvent) (st : State) : State :=
  let name := join "." [databaseName event; collectionFor event; commandName event] in
  match ins_createSpan name "db" "mongodb" (commandName event) true st with
  | (st, None) => st
  | (st, Some span) =>
      let st := set_activeSpans (<[requestId event := span]> (activeSpans st)) st in
      let address := js_or (address event) (connectionId event) in
      let st := console_log (ConsoleEvent event) st in
      let unresolved :=
        logger_log Trace
          "could not set destination context on mongodb span from address=%j"
          [address] in
      let st :=
        if truthy address then
          match address with
          | VStr a =>
              match HOSTNAME_PORT_RE_exec a with
              | Some (host, port) =>
                  span_setDestinationContext span (getDBDestination host port) st
              | None => unresolved st
              end
          | _ => unresolved st
          end
        else unresolved st in
      span_setDbContext span {| db_type := "mongodb"; db_instance := databaseName event |} st
  end.

Definition onEnd (event : CommandEndEvent) (st : State) : State :=
  match activeSpans st !! end_requestId event with
  | None => st
  | Some span =>
      let st := set_activeSpans (delete (end_requestId event) (activeSpans st)) st in
      match spans st !! span with
      | Some s => span_end span (Some (_timer_start s / 1000 + duration event)%Q) st
      | None => st (* the table only holds references the tracer handed out *)
      end
  end.

(** *** Interception strategy: [wrapCollectionApi] (lines 126-172) *)

(** The namespace and the owning database of a collection handle
    ([this.s]). *)
Record Namespace := { ns_db : string; ns_collection : string }.

Record Collection := { s_db : value; s_namespace : Namespace }.

(** What one invocation of a driver method does, seen from the outside:
    it may apply its last argument any number of times, and it settles by
    returning (or resolving to) a value or by throwing (or rejecting).
    The order of the interactions is kept; whether a callback fires before
    or after the method has returned is not. *)
Inductive Op :=
| Settle (r : result value)
| CallLast (args : list value) (k : result value -> Op).

Definition not_a_function : value := VStr "TypeError: callback is not a function".

(** [f.apply(null, args)] *)
Fixpoint apply_func (f : Func) (args : list value) (st : State) : State * result value :=
  match f with
  | UserFn id => (st, call_user id args)
  | SpanEndThen span cb => apply_func cb args (span_end span None st)
  end.

(** [origApi.apply(this, arguments)], awaited. *)
Fixpoint run_op (op : Op) (arguments : list value) (st : State) : State * result value :=
  match op with
  | Settle r => (st, r)
  | CallLast args k =>
      match last arguments with
      | Some (VFun f) =>
          match apply_func f args st with
          | (st', r) => run_op (k r) arguments st'
          end
      | _ => run_op (k (Throw not_a_function)) arguments st
      end
  end.

(** Lines 137-152 of [wrappedCollectionApi]: the db context and the
    destination context of the span just granted.  [destination] stays
    undefined ([None]) when the address is falsy or [new URL] throws, the
    exception being caught at line 145; the span gets a destination only
    when [destination] is truthy (line 148), and the trace message is
    logged otherwise. *)
Definition annotate (span : nat) (this : Collection) (st : State) : State :=
  let db := s_db this in
  let namespace := s_namespace this in
  let st :=
    span_setDbContext span {| db_type := "mongodb"; db_instance := ns_db namespace |} st in
  let address := _get db "s.client.s.url" in
  let destination :=
    if truthy address then
      match new_URL address with
      | Some (hostname, port) => Some (getDBDestination hostname port)
      | None => None
      end
    else None in
  let unresolved :=
    logger_log Trace
      "could not set destination context on mongodb span from address=%j"
      [address] in
  match destination with
  | Some d =>
      if destination_truthy d then span_setDestinationContext span d st
      else unresolved st
  | None => unresolved st
  end.

(** The [async function wrappedCollectionApi] returned by
    [wrapCollectionApi (origApi, apiName)], applied to [this] and
    [arguments]; the result is how its promise settles. *)
Definition wrappedCollectionApi (origApi : Collection -> list value -> Op) (apiName : string)
    (this : Collection) (arguments : list value) (st : State) : State * result value :=
  let namespace := s_namespace this in
  let name := ns_db namespace +:+ "." +:+ ns_collection namespace +:+ "." +:+ apiName in
  match ins_createSpan name "db" "mongodb" apiName true st with
  | (st, None) => run_op (origApi this arguments) arguments st
  | (st, Some span) =>
      let st := annotate span this st in
      match last arguments with
      | Some (VFun cb) =>
          let arguments :=
            <[(length arguments - 1)%nat := VFun (SpanEndThen span cb)]> arguments in
          run_op (origApi this arguments) arguments st
      | _ =>
          match run_op (origApi this arguments) arguments st with
          | (st, Return res) => (span_end span None st, Return res)
          | (st, Throw err) => (span_end span None st, Throw err)
          end
      end
  end.

(** *** Installation: [module.exports] (lines 50-79) *)

Inductive Handler := H_onStart | H_onEnd.

Inductive Wrapper := W_wrapDb | W_wrapCollection | W_wrapCollectionApi | W_wrapFind | W_wrapNext.

(** A method slot of a driver object: the driver's own function or the
    result of [shimmer.wrap]. *)
Inductive Method :=
| Original
| Wrapped (w : Wrapper) (orig : Method).

(** Modelled from the spec: [shimmer.wrap (obj, name, wrapper)] of
    [../shimmer], which replaces [obj[name]] by [wrapper (obj[name])]. *)
Definition shimmer_wrap (w : Wrapper) (m : Method) : Method := Wrapped w m.

(** The surface of the driver module this code looks at, and what it does
    to it. *)
Record Mongodb := mkMongodb {
  instrument : bool;
  MongoClient : bool;
  instrument_calls : nat;
  listeners : list (string * Handler);
  MongoClient_prototype_db : Method
}.

Definition module_exports (mongodb : Mongodb) (version : string) (enabled : value)
    (st : State) : Mongodb * State :=
  if negb (truthy enabled) then (mongodb, st)
  else if negb (semver_satisfies version ">=3.3 <6.0") then
    (mongodb,
     logger_log Debug
       "mongodb version %s not instrumented (mongodb <3.3 is instrumented via mongodb-core)"
       [VStr version] st)
  else
    let st := set_activeSpans ∅ st in
    if instrument mongodb then
      (mkMongodb (instrument mongodb) (MongoClient mongodb) (S (instrument_calls mongodb))
         (listeners mongodb
            ++ [("started", H_onStart); ("succeeded", H_onEnd); ("failed", H_onEnd)])
         (MongoClient_prototype_db mongodb),
       st)
    else if MongoClient mongodb then
      (mkMongodb (instrument mongodb) (MongoClient mongodb) (instrument_calls mongodb)
         (listeners mongodb)
         (shimmer_wrap W_wrapDb (MongoClient_prototype_db mongodb)),
       st)
    else (mongodb, logger_log Warn "could not instrument mongodb@%s" [VStr version] st).

(** *** The driver emitting its notifications *)

Inductive Notification :=
| NStarted (event : CommandStartedEvent)
| NEnded (event : CommandEndEvent).

(** The driver emits ['started'] with a [CommandStartedEvent] and
    ['succeeded'] / ['failed'] with an end event; other pairings do not
    occur and are given no effect. *)
Definition call_handler (h : Handler) (n : Notification) (st : State) : State :=
  match h, n with
  | H_onStart, NStarted event => onStart event st
  | H_onEnd, NEnded event => onEnd event st
  | _, _ => st
  end.

(** [listener.emit (name, n)] *)
Definition emit (mongodb : Mongodb) (name : string) (n : Notification) (st : State) : State :=
  fold_left
    (fun st l => if String.eqb (fst l) name then call_handler (snd l) n st else st)
    (listeners mongodb) st.

(** *** Observations used in the statements *)

(** The function of the user at the bottom of a closure, and the spans
    the closure captures. *)
Fixpoint base (f : Func) : nat :=
  match f with
  | UserFn id => id
  | SpanEndThen _ cb => base cb
  end.

Fixpoint captures (f : Func) : list nat :=
  match f with
  | UserFn _ => []
  | SpanEndThen span cb => span :: captures cb
  end.

(** What the last argument answers when the operation applies it. *)
Definition last_answer (arguments args : list value) : result value :=
  match last arguments with
  | Some (VFun f) => call_user (base f) args
  | _ => Throw not_a_function
  end.

(** How the operation settles. *)
Fixpoint outcome_of (op : Op) (arguments : list value) : result value :=
  match op with
  | Settle r => r
  | CallLast args k => outcome_of (k (last_answer arguments args)) arguments
  end.

(** How many times the operation applies its last argument. *)
Fixpoint invocations (op : Op) (arguments : list value) : nat :=
  match op with
  | Settle _ => 0
  | CallLast args k =>
      match last arguments with
      | Some (VFun _) => S (invocations (k (last_answer arguments args)) arguments)
      | _ => invocations (k (last_answer arguments args)) arguments
      end
  end.

(** The captures of [match], if any, on the address of a started event
    (lines 201-206). *)
Definition address_match (event : CommandStartedEvent) : option (string * string) :=
  let address := js_or (address event) (connectionId event) in
  if truthy address then
    match address with
    | VStr a => HOSTNAME_PORT_RE_exec a
    | _ => None
    end
  else None.

(** The span name of section 4.3, in the words of the specification:
    the label is the value of [commandPayload[operationName]] when that
    value is a string, the sentinel otherwise. *)
Definition is_string (v : value) : bool :=
  match v with VStr _ => true | _ => false end.

Definition string_of (v : value) : string :=
  match v with VStr s => s | _ => "" end.

Definition spec_collectionLabel (commandPayload : gmap string value)
    (operationName : string) : string :=
  let v := get_prop (VObj commandPayload) operationName in
  if is_string v then string_of v else "$cmd".

Definition spec_spanName (databaseName : string) (commandPayload : gmap string value)
    (operationName : string) : string :=
  databaseName +:+ "." +:+ spec_collectionLabel commandPayload operationName
    +:+ "." +:+ operationName.

(** The handlers a notification name reaches. *)
Definition handlers_for (mongodb : Mongodb) (name : string) : list Handler :=
  map snd (filter (fun l => String.eqb (fst l) name = true) (listeners mongodb)).

(** *** Well-formed states: the table refers to spans of the store *)

Definition table_wf (st : State) : Prop :=
  forall id sp, activeSpans st !! id = Some sp -> (sp < length (spans st))%nat.

(** A notification reaching its handler, and the request it is about. *)
Definition handle (n : Notification) (st : State) : State :=
  match n with
  | NStarted event => onStart event st
  | NEnded event => onEnd event st
  end.

Definition notification_id (n : Notification) : Z :=
  match n with
  | NStarted event => requestId event
  | NEnded event => end_requestId event
  end.

(** Request [R] is in flight on span [r], started at [t] and not ended,
    and no other request shares that span. *)
Definition in_flight (R : Z) (r : nat) (t : Q) (st : State) : Prop :=
  activeSpans st !! R = Some r /\
  (forall id, activeSpans st !! id = Some r -> id = R) /\
  table_wf st /\
  exists s, spans st !! r = Some s /\ ended s = [] /\ _timer_start s = t.

(** *** The other wrappers: [wrapCollection] and [wrapNext] (lines 93-122) *)

Definition COLLECTION_METHODS : list string :=
  ["findOne"; "insertOne"; "insertMany";
   "updateOne"; "updateMany"; "replaceOne";
   "deleteOne"; "deleteMany";
   "bulkWrite"].

(** A property of a driver object: a function or any other value. *)
Inductive Slot :=
| SFun (m : Method)
| SVal (v : value).

(** [typeof obj[name] === 'function'] *)
Definition is_function (obj : gmap string Slot) (name : string) : bool :=
  match obj !! name with
  | Some (SFun _) => true
  | _ => false
  end.

(** Modelled from the spec: [shimmer.wrap (obj, name, wrapper)] of
    [../shimmer] on an object, replacing the function at [name] by its
    wrapped form; a property that is not a function is left alone. *)
Definition shimmer_wrap_at (obj : gmap string Slot) (name : string) (w : Wrapper)
    : gmap string Slot :=
  match obj !! name with
  | Some (SFun m) => <[name := SFun (shimmer_wrap w m)]> obj
  | _ => obj
  end.

(** [wrappedCollection], from the handle [origCollection] returned: the
    loop over [COLLECTION_METHODS] with its guard, then [find]. *)
Definition wrappedCollection (coll : gmap string Slot) : gmap string Slot :=
  let coll :=
    fold_left
      (fun coll methodName =>
         if is_function coll methodName
         then shimmer_wrap_at coll methodName W_wrapCollectionApi
         else coll)
      COLLECTION_METHODS coll in
  shimmer_wrap_at coll "find" W_wrapFind.

(** The [async function wrappedNext] returned by [wrapNext (origNext)]. *)
Definition wrappedNext (origNext : list value -> Op) (arguments : list value) (st : State)
    : State * result value :=
  match run_op (origNext arguments) arguments st with
  | (st, Return result) => (console_log (ConsoleText "next called") st, Return result)
  | (st, Throw err) => (st, Throw err)
  end.

(** *** Further observations *)

(** Following keys from an object, stopping at the first falsy value. *)
Fixpoint walk (obj : value) (keys : list string) : value :=
  match keys with
  | [] => obj
  | key :: keys' => if truthy obj then walk (get_prop obj key) keys' else obj
  end.

Definition dot_free (s : string) : bool :=
  string_forall (fun c => negb (Ascii.eqb c ".")) s.

Definition colon_free (s : string) : bool :=
  string_forall (fun c => negb (Ascii.eqb c ":")) s.

(** What wrapping does to a property: a function is wrapped, anything else
    is left as it is. *)
Definition wrapped_slot (w : Wrapper) (o : option Slot) : option Slot :=
  match o with
  | Some (SFun m) => Some (SFun (Wrapped w m))
  | _ => o
  end.

(** A run of notifications, in order of arrival. *)
Definition handle_all (ns : list Notification) (st : State) : State :=
  fold_left (fun st n => handle n st) ns st.

(** Is there an end event for [id] among [ns]? *)
Definition ends_later (id : Z) (ns : list Notification) : bool :=
  existsb
    (fun n => match n with
              | NEnded event => bool_decide (end_requestId event = id)
              | NStarted _ => false
              end)
    ns.

(** Every started event is followed, later on, by an end event of the same
    request. *)
Fixpoint all_matched (ns : list Notification) : bool :=
  match ns with
  | [] => true
  | NStarted event :: ns' => ends_later (requestId event) ns' && all_matched ns'
  | NEnded _ :: ns' => all_matched ns'
  end.

(** The table refers to spans of the store, no two requests share a span,
    and every span in the table is still open. *)
Definition table_inv (st : State) : Prop :=
  table_wf st /\
  (forall id id' r,
     activeSpans st !! id = Some r -> activeSpans st !! id' = Some r -> id = id') /\
  (forall id r s,
     activeSpans st !! id = Some r -> spans st !! r = Some s -> ended s = []).

Definition ended_at_most_once (st : State) : Prop :=
  forall r s, spans st !! r = Some s -> (length (ended s) <= 1)%nat.

(** The destination the wrapper sets on the span, if any (lines
    138-149): the one built from the client's URL, when the URL parses and
    the destination built from it is truthy. *)
Definition url_destination (this : Collection) : option Destination :=
  let address := _get (s_db this) "s.client.s.url" in
  let destination :=
    if truthy address then
      match new_URL address with
      | Some (hostname, port) => Some (getDBDestination hostname port)
      | None => None
      end
    else None in
  match destination with
  | Some d => if destination_truthy d then Some d else None
  | None => None
  end.

(** *** Calls as their caller sees them *)

(** What a call hands to its caller: a value or an exception at once, or
    a promise, with the way it settles. *)
Inductive Completion :=
| Returns (v : value)
| Throws (err : value)
| Promise (settled : result value).

Definition settled_as (c : Completion) : result value :=
  match c with
  | Returns v => Return v
  | Throws err => Throw err
  | Promise settled => settled
  end.

(** How a method of the driver hands over its outcome: at once (a return
    value or an exception), or through a promise. *)
Inductive Delivery := AtOnce | ByPromise.

Definition deliver (d : Delivery) (r : result value) : Completion :=
  match d with
  | AtOnce => match r with Return v => Returns v | Throw err => Throws err end
  | ByPromise => Promise r
  end.

(** [origApi.apply(this, arguments)], seen by its caller. *)
Definition call_origApi (origApi : Collection -> list value -> Op) (d : Delivery)
    (this : Collection) (arguments : list value) (st : State) : State * Completion :=
  match run_op (origApi this arguments) arguments st with
  | (st', r) => (st', deliver d r)
  end.

(** [wrappedCollectionApi.apply(this, arguments)], seen by its caller: an
    [async function] (line 127) hands back a promise in every case, which
    settles as the body completes. *)
Definition call_wrappedCollectionApi (origApi : Collection -> list value -> Op)
    (apiName : string) (this : Collection) (arguments : list value) (st : State)
    : State * Completion :=
  match wrappedCollectionApi origApi apiName this arguments st with
  | (st', r) => (st', Promise r)
  end.

End Model.

(** ** A concrete set of collaborators, to run the model *)

Fixpoint parse_nat_from (acc : nat) (s : string) : option nat :=
  match s with
  | EmptyString => Some acc
  | String c s' =>
      if re_digit c then parse_nat_from (10 * acc + (nat_of_ascii c - 48)) s'
      else None
  end.

Definition parse_nat (s : string) : option nat :=
  match s with
  | EmptyString => None
  | String _ _ => parse_nat_from 0 s
  end.

(** A stand-in for [semver.satisfies] on plain MAJOR.MINOR.PATCH versions
    and the one range this module asks about. *)
Definition demo_satisfies (version range : string) : bool :=
  String.eqb range ">=3.3 <6.0" &&
  match map parse_nat (split_on "." version) with
  | [Some major; Some minor; Some _] =>
      ((3 <? major)%nat || (major =? 3)%nat && (3 <=? minor)%nat) && (major <? 6)%nat
  | _ => false
  end.

(** The tracer answers from a script: one entry per [createSpan] call. *)
Definition demo_createSpan (name type subtype action : string) (exitSpan : bool)
    (script : list (option Q)) : list (option Q) * option Q :=
  match script with
  | [] => ([], None)
  | answer :: script' => (script', answer)
  end.

Definition demo : Collaborators := {|
  Ins := list (option Q);
  createSpan := demo_createSpan;
  Destination := string * string;
  getDBDestination := fun host port => (host, port);
  destination_truthy := fun _ => true;
  new_URL := fun _ => None;
  semver_satisfies := demo_satisfies;
  call_user := fun _ _ => Return VUndef
|}.

Definition demo_state (script : list (option Q)) : @State demo :=
  @mkState demo script ∅ [] [] [].

Definition demo_mongodb3 : Mongodb := mkMongodb true true 0 [] Original.

Definition insert_cats (db : string) : CommandStartedEvent := {|
  address := VStr "127.0.0.1:27017";
  connectionId := VNum 1;
  requestId := 7;
  databaseName := db;
  commandName := "insert";
  command := {[ "insert" := VStr "cats"; "documents" := VObj ∅ ]}
|}.

Definition ping (db : string) : CommandStartedEvent := {|
  address := VStr "not-an-address";
  connectionId := VNum 1;
  requestId := 8;
  databaseName := db;
  commandName := "ping";
  command := {[ "ping" := VNum 1 ]}
|}.

Definition end_of_7 : CommandEndEvent :=
  {| end_requestId := 7; duration := 3; outcome := Succeeded VUndef |}.

Definition cats : Collection :=
  {| s_db := VUndef; s_namespace := {| ns_db := "test"; ns_collection := "cats" |} |}.

(** Operations of the driver: one that applies its callback once, one that
    returns without applying it, one that applies it twice, one that throws. *)
Definition once_op (this : Collection) (arguments : list value) : Op :=
  CallLast [VNull; VStr "ok"] (fun _ => Settle (Return VUndef)).

Definition silent_op (this : Collection) (arguments : list value) : Op :=
  Settle (Return VUndef).

Definition twice_op (this : Collection) (arguments : list value) : Op :=
  CallLast [VNull; VStr "ok"]
    (fun _ => CallLast [VNull; VStr "ok"] (fun _ => Settle (Return VUndef))).

Definition throwing_op (this : Collection) (arguments : list value) : Op :=
  Settle (Throw (VRef 1)).

Definition end_of_8 : CommandEndEvent :=
  {| end_requestId := 8; duration := 2; outcome := Failed (VRef 1) |}.

Definition client_db : value :=
  VObj {[ "s" := VObj {[ "client" :=
    VObj {[ "s" := VObj {[ "url" := VStr "mongodb://localhost:27017" ]} ]} ]} ]}.

(** Collaborators whose [URL] parser succeeds, the destination built from
    the URL being truthy or not. *)
Definition demo_with_url (truthy_destination : bool) : Collaborators := {|
  Ins := list (option Q);
  createSpan := demo_createSpan;
  Destination := string * string;
  getDBDestination := fun host port => (host, port);
  destination_truthy := fun _ => truthy_destination;
  new_URL := fun _ => Some ("localhost", "27017");
  semver_satisfies := demo_satisfies;
  call_user := fun _ _ => Return VUndef
|}.

Definition cats_of_client : Collection :=
  {| s_db := client_db; s_namespace := {| ns_db := "test"; ns_collection := "cats" |} |}.

Definition demo_coll : gmap string Slot :=
  {[ "insertOne" := SFun Original; "find" := SFun Original; "s" := SVal VNull ]}.

(** * Properties *)

Example exec_localhost :
  HOSTNAME_PORT_RE_exec "127.0.0.1:27017" = Some ("127.0.0.1", "27017").
Proof. reflexivity. Qed.

Example exec_ipv6 : HOSTNAME_PORT_RE_exec "::1:27017" = Some ("::1", "27017").
Proof. reflexivity. Qed.

Example exec_not_an_address : HOSTNAME_PORT_RE_exec "not-an-address" = None.
Proof. reflexivity. Qed.

Example demo_satisfies_2_9_0 : demo_satisfies "2.9.0" ">=3.3 <6.0" = false.
Proof. reflexivity. Qed.

Example demo_satisfies_4_2_1 : demo_satisfies "4.2.1" ">=3.3 <6.0" = true.
Proof. reflexivity. Qed.

Example collectionFor_insert_cats db : collectionFor (insert_cats db) = "cats".
Proof. reflexivity. Qed.

Example collectionFor_ping db : collectionFor (ping db) = "$cmd".
Proof. reflexivity. Qed.

Local Arguments String.append !_ _ / : simpl nomatch.

Section Properties.
Context `{Collaborators}.

(** ** The pattern *)

Lemma greedy_plus_spec p s m r :
  (m, r) ∈ greedy_plus p s <-> s = m +:+ r /\ m <> "" /\ string_forall p m = true.
Proof.
  revert m r. induction s as [|c s IH]; intros m r; simpl.
  - split; [by intros ?%elem_of_nil|].
    intros (E & N & _). destruct m; [done|discriminate E].
  - destruct (p c) eqn:P.
    + rewrite elem_of_app, list_elem_of_fmap, list_elem_of_singleton. split.
      * intros [([m' r'] & [= -> ->] & In)|[= -> ->]].
        -- apply IH in In as (-> & N & F). simpl. by rewrite P, F.
        -- simpl. by rewrite P.
      * intros (E & N & F). destruct m as [|c' m]; [done|].
        simpl in E. injection E as <- ->. simpl in F.
        apply andb_true_iff in F as [_ F].
        destruct m as [|c'' m]; [by right|].
        left. exists (String c'' m, r). split; [done|]. by apply IH.
    + split; [by intros ?%elem_of_nil|].
      intros (E & N & F). destruct m as [|c' m]; [done|].
      simpl in E. injection E as <- ->. simpl in F. by rewrite P in F.
Qed.

Lemma first_match_Some {A B} (k : A -> option B) alts b :
  first_match k alts = Some b -> exists a, a ∈ alts /\ k a = Some b.
Proof.
  induction alts as [|a alts IH]; simpl; [done|].
  destruct (k a) eqn:K.
  - intros [= ->]. exists a. split; [left|done].
  - intros (a' & In & K')%IH. exists a'. split; [by right|done].
Qed.

Lemma first_match_is_Some {A B} (k : A -> option B) alts a b :
  a ∈ alts -> k a = Some b -> is_Some (first_match k alts).
Proof.
  induction alts as [|a' alts IH]; simpl; [by intros ?%elem_of_nil|].
  intros [->|In]%elem_of_cons K.
  - by rewrite K.
  - destruct (k a'); [done|]. by apply IH.
Qed.

Lemma append_empty_r s : s +:+ "" = s.
Proof. induction s as [|c s IH]; [done|]. simpl. f_equal. exact IH. Qed.

Lemma digits_have_no_colon a b : string_forall re_digit (a +:+ String ":" b) = false.
Proof.
  induction a as [|c a IH]; simpl in *; [done|]. rewrite IH. by destruct (re_digit c).
Qed.

(** The colon of the pattern is the last one of the string. *)
Lemma host_port_unique h p h' p' :
  h +:+ String ":" p = h' +:+ String ":" p' ->
  string_forall re_digit p = true -> string_forall re_digit p' = true ->
  h = h' /\ p = p'.
Proof.
  revert h'. induction h as [|c h IH]; intros [|c' h']; simpl; intros E D D'.
  - by injection E.
  - injection E as <- ->. by rewrite digits_have_no_colon in D.
  - injection E as -> <-. by rewrite digits_have_no_colon in D'.
  - injection E as -> E. destruct (IH _ E D D') as [-> ->]. done.
Qed.

Lemma port_match_spec (h r : string) x :
  first_match
    (fun pr : string * string =>
       match pr.2 with
       | EmptyString => Some (h, pr.1)
       | String _ _ => None
       end)
    (greedy_plus re_digit r) = Some x <->
  x = (h, r) /\ r <> "" /\ string_forall re_digit r = true.
Proof.
  split.
  - intros ([m rest] & In & K)%first_match_Some. simpl in K.
    apply greedy_plus_spec in In as (-> & N & F).
    destruct rest; [|done]. injection K as <-.
    rewrite append_empty_r. done.
  - intros (-> & N & F).
    destruct (first_match_is_Some
                (fun pr : string * string =>
                   match pr.2 with
                   | EmptyString => Some (h, pr.1)
                   | String _ _ => None
                   end)
                (greedy_plus re_digit r) (r, "") (h, r)) as [y Y]; [|done|].
    { apply greedy_plus_spec. by rewrite append_empty_r. }
    rewrite Y. f_equal.
    apply first_match_Some in Y as ([m rest] & In & K). simpl in K.
    apply greedy_plus_spec in In as (E & _).
    destruct rest; [|done]. injection K as <-.
    by rewrite E, append_empty_r.
Qed.

(** [HOSTNAME_PORT_RE.exec] finds exactly the split the pattern describes. *)
Lemma HOSTNAME_PORT_RE_exec_spec s host port :
  HOSTNAME_PORT_RE_exec s = Some (host, port) <-> host_port s host port.
Proof.
  unfold HOSTNAME_PORT_RE_exec, host_port.
  assert (Sound : forall x,
    first_match
      (fun hr : string * string =>
         match hr.2 with
         | String ":" r =>
             first_match
               (fun pr : string * string =>
                  match pr.2 with
                  | EmptyString => Some (hr.1, pr.1)
                  | String _ _ => None
                  end)
               (greedy_plus re_digit r)
         | _ => None
         end)
      (greedy_plus re_dot s) = Some x ->
    s = x.1 +:+ ":" +:+ x.2 /\ x.1 <> "" /\ string_forall re_dot x.1 = true /\
    x.2 <> "" /\ string_forall re_digit x.2 = true).
  { intros x ([h rest] & In & K)%first_match_Some. simpl in K.
    apply greedy_plus_spec in In as (-> & N & F).
    destruct rest as [|c r]; [done|].
    destruct (Ascii.eqb_spec c ":") as [->|Ne].
    - apply port_match_spec in K as (-> & N' & F'). done.
    - destruct c as [[] [] [] [] [] [] [] []]; try done. }
  split.
  - intros E. apply (Sound (host, port) E).
  - intros (-> & N & F & N' & F').
    destruct (first_match_is_Some
      (fun hr : string * string =>
         match hr.2 with
         | String ":" r =>
             first_match
               (fun pr : string * string =>
                  match pr.2 with
                  | EmptyString => Some (hr.1, pr.1)
                  | String _ _ => None
                  end)
               (greedy_plus re_digit r)
         | _ => None
         end)
      (greedy_plus re_dot (host +:+ ":" +:+ port)) (host, ":" +:+ port) (host, port))
      as [[h' p'] Y].
    { by apply greedy_plus_spec. }
    { simpl. by apply port_match_spec. }
    rewrite Y. f_equal.
    apply Sound in Y as (E & _ & _ & _ & D). simpl in *.
    destruct (host_port_unique _ _ _ _ E F' D) as [-> ->]. done.
Qed.

Lemma HOSTNAME_PORT_RE_exec_None s :
  HOSTNAME_PORT_RE_exec s = None <-> forall host port, ~ host_port s host port.
Proof.
  split.
  - intros E host port M. apply HOSTNAME_PORT_RE_exec_spec in M. congruence.
  - intros N. destruct (HOSTNAME_PORT_RE_exec s) as [[host port]|] eqn:E; [|done].
    by destruct (N host port); apply HOSTNAME_PORT_RE_exec_spec.
Qed.

(** ** The store of spans *)

Lemma alter_new_span (f : Span -> Span) (l : list Span) (s : Span) :
  alter f (length l) (l ++ [s]) = l ++ [f s].
Proof.
  replace (length l) with (length l + 0)%nat by lia.
  by rewrite alter_app_r.
Qed.

Lemma ins_createSpan_refused name type subtype action exitSpan st i :
  createSpan name type subtype action exitSpan (ins st) = (i, None) ->
  ins_createSpan name type subtype action exitSpan st = (set_ins i st, None).
Proof. intros E. unfold ins_createSpan. by rewrite E. Qed.

Lemma ins_createSpan_granted name type subtype action exitSpan st i t :
  createSpan name type subtype action exitSpan (ins st) = (i, Some t) ->
  ins_createSpan name type subtype action exitSpan st =
    (set_spans (spans st ++ [mkSpan _ name type subtype action exitSpan t None None []])
       (set_ins i st),
     Some (length (spans st))).
Proof. intros E. unfold ins_createSpan. by rewrite E. Qed.

Lemma lookup_span_end r e sp (st : State) :
  spans (span_end r e st) !! sp =
    if decide (r = sp) then with_end e <$> spans st !! sp else spans st !! sp.
Proof.
  unfold span_end, update_span; simpl. case_decide as E.
  - subst. apply list_lookup_alter_eq.
  - by apply list_lookup_alter_ne.
Qed.

(** ** The event strategy *)

(** What a granted [onStart] leaves behind, field by field. *)
Lemma onStart_granted event st i t :
  createSpan (join "." [databaseName event; collectionFor event; commandName event])
    "db" "mongodb" (commandName event) true (ins st) = (i, Some t) ->
  onStart event st =
    mkState _ i
      (<[requestId event := length (spans st)]> (activeSpans st))
      (spans st ++
         [mkSpan _ (join "." [databaseName event; collectionFor event; commandName event])
            "db" "mongodb" (commandName event) true t
            (Some {| db_type := "mongodb"; db_instance := databaseName event |})
            (match address_match event with
             | Some (host, port) => Some (getDBDestination host port)
             | None => None
             end)
            []])
      (logger st ++
         match address_match event with
         | Some _ => []
         | None =>
             [{| log_level := Trace;
                 log_format :=
                   "could not set destination context on mongodb span from address=%j";
                 log_args := [js_or (address event) (connectionId event)] |}]
         end)
      (console st ++ [ConsoleEvent event]).
Proof.
  intros E. unfold onStart. rewrite (ins_createSpan_granted _ _ _ _ _ _ _ _ E).
  unfold address_match.
  destruct (truthy (js_or (address event) (connectionId event))) eqn:T.
  - destruct (js_or (address event) (connectionId event)) eqn:A;
      try (unfold span_setDbContext, logger_log, update_span; simpl;
           by rewrite alter_new_span).
    destruct (HOSTNAME_PORT_RE_exec s) as [[host port]|] eqn:M.
    + unfold span_setDbContext, span_setDestinationContext, update_span; simpl.
      rewrite !alter_new_span. by rewrite app_nil_r.
    + unfold span_setDbContext, logger_log, update_span; simpl.
      by rewrite alter_new_span.
  - unfold span_setDbContext, logger_log, update_span; simpl.
    by rewrite alter_new_span.
Qed.

Lemma onStart_refused event st i :
  createSpan (join "." [databaseName event; collectionFor event; commandName event])
    "db" "mongodb" (commandName event) true (ins st) = (i, None) ->
  onStart event st = set_ins i st.
Proof.
  intros E. unfold onStart. by rewrite (ins_createSpan_refused _ _ _ _ _ _ _ E).
Qed.

(** C1 (amended).  A started event for which a span is granted, followed
    by the end event of the same request id, leaves no entry for that id in
    the table and ends exactly one span, the one just granted, exactly
    once; the end time handed to [span.end] is the span's [_timer.start]
    divided by 1000 plus the duration of the end event.  No other span of
    the store is touched. *)
Theorem onStart_onEnd_closes_span event fin st i t :
  createSpan (join "." [databaseName event; collectionFor event; commandName event])
    "db" "mongodb" (commandName event) true (ins st) = (i, Some t) ->
  end_requestId fin = requestId event ->
  activeSpans (onEnd fin (onStart event st)) !! requestId event = None /\
  length (spans (onEnd fin (onStart event st))) = S (length (spans st)) /\
  (exists s, spans (onEnd fin (onStart event st)) !! length (spans st) = Some s /\
     _timer_start s = t /\
     ended s = [Some (_timer_start s / 1000 + duration fin)%Q]) /\
  (forall r, (r < length (spans st))%nat ->
     spans (onEnd fin (onStart event st)) !! r = spans st !! r).
Proof.
  intros E R. rewrite (onStart_granted _ _ _ _ E).
  unfold onEnd; simpl. rewrite R, lookup_insert_eq; simpl.
  rewrite list_lookup_middle by done.
  unfold span_end, update_span; simpl. rewrite alter_new_span.
  split; [apply lookup_delete_eq|].
  split; [rewrite length_app; simpl; lia|].
  split.
  - eexists. split; [by apply list_lookup_middle|]. by simpl.
  - intros r Hr. by apply lookup_app_l.
Qed.

(** *** Interleaving with other requests *)

Lemma onStart_in_flight event st i t :
  table_wf st ->
  createSpan (join "." [databaseName event; collectionFor event; commandName event])
    "db" "mongodb" (commandName event) true (ins st) = (i, Some t) ->
  in_flight (requestId event) (length (spans st)) t (onStart event st).
Proof.
  intros W E. rewrite (onStart_granted _ _ _ _ E). unfold in_flight, table_wf; simpl.
  split; [apply lookup_insert_eq|]. split; [|split].
  - intros id L. destruct (decide (id = requestId event)) as [->|Ne]; [done|].
    rewrite lookup_insert_ne in L by congruence. apply W in L. lia.
  - intros id sp L. rewrite length_app; simpl.
    destruct (decide (id = requestId event)) as [->|Ne].
    + rewrite lookup_insert_eq in L. injection L as <-. lia.
    + rewrite lookup_insert_ne in L by congruence. apply W in L. lia.
  - eexists. split; [by apply list_lookup_middle|]. by simpl.
Qed.

Lemma handle_other_request n R r t st :
  notification_id n ≠ R -> in_flight R r t st -> in_flight R r t (handle n st).
Proof.
  intros Ne (L & U & W & s & S & En & T). destruct n as [event|event]; simpl in *.
  - destruct (createSpan (join "." [databaseName event; collectionFor event; commandName event])
                "db" "mongodb" (commandName event) true (ins st)) as [i [t'|]] eqn:E.
    + rewrite (onStart_granted _ _ _ _ E). unfold in_flight, table_wf; simpl.
      assert (Hr := W _ _ L).
      split; [by rewrite lookup_insert_ne|]. split; [|split].
      * intros id L'. destruct (decide (id = requestId event)) as [->|Ne'].
        -- rewrite lookup_insert_eq in L'. injection L' as <-. lia.
        -- rewrite lookup_insert_ne in L' by congruence. by apply U.
      * intros id sp L'. rewrite length_app; simpl.
        destruct (decide (id = requestId event)) as [->|Ne'].
        -- rewrite lookup_insert_eq in L'. injection L' as <-. lia.
        -- rewrite lookup_insert_ne in L' by congruence. apply W in L'. lia.
      * exists s. by rewrite lookup_app_l.
    + rewrite (onStart_refused _ _ _ E). unfold in_flight, table_wf; simpl.
      split; [done|]. split; [done|]. split; [done|]. by exists s.
  - unfold onEnd. destruct (activeSpans st !! end_requestId event) as [r'|] eqn:L'.
    2: { split; [done|]. split; [done|]. split; [done|]. by exists s. }
    assert (Nr : r' ≠ r). { intros ->. by apply Ne, U. }
    assert (P : in_flight R r t
                  (set_activeSpans (delete (end_requestId event) (activeSpans st)) st)).
    { unfold in_flight, table_wf; simpl.
      split; [by rewrite lookup_delete_ne|]. split; [|split].
      - intros id [_ L'']%lookup_delete_Some. by apply U.
      - intros id sp [_ L'']%lookup_delete_Some. by apply W in L''.
      - by exists s. }
    simpl. destruct (spans st !! r') as [s'|]; [|done].
    destruct P as (PL & PU & PW & _). unfold in_flight, table_wf, span_end, update_span in *.
    simpl in *. split; [done|]. split; [done|]. split.
    + intros id sp L''. rewrite length_alter. by apply (PW id).
    + exists s. by rewrite list_lookup_alter_ne.
Qed.

Lemma handle_others ns R r t st :
  Forall (fun n => notification_id n ≠ R) ns ->
  in_flight R r t st -> in_flight R r t (fold_left (fun st n => handle n st) ns st).
Proof.
  intros F. revert st. induction F as [|n ns Ne F IH]; intros st I; simpl; [done|].
  by apply IH, handle_other_request.
Qed.

(** X20.  The pairing of C1 with any notifications of other requests
    arriving in between: the entry of [R] is removed and the span granted
    to [R] is ended once, at its start time over 1000 plus the duration. *)
Lemma onStart_onEnd_interleaved event ns fin st i t :
  table_wf st ->
  createSpan (join "." [databaseName event; collectionFor event; commandName event])
    "db" "mongodb" (commandName event) true (ins st) = (i, Some t) ->
  Forall (fun n => notification_id n ≠ requestId event) ns ->
  end_requestId fin = requestId event ->
  activeSpans (onEnd fin (fold_left (fun st n => handle n st) ns (onStart event st)))
    !! requestId event = None /\
  exists s,
    spans (onEnd fin (fold_left (fun st n => handle n st) ns (onStart event st)))
      !! length (spans st) = Some s /\
    ended s = [Some (t / 1000 + duration fin)%Q].
Proof.
  intros W E F R.
  destruct (handle_others ns _ _ _ _ F (onStart_in_flight _ _ _ _ W E))
    as (L & _ & _ & s & S & En & T).
  unfold onEnd. rewrite R, L; simpl. rewrite S.
  split; [apply lookup_delete_eq|].
  unfold span_end, update_span; simpl. rewrite list_lookup_alter_eq, S; simpl.
  eexists. split; [done|]. simpl. by rewrite En, T.
Qed.

(** C4.  An end event whose request id has no entry in the table changes
    nothing: the state, hence the size of the table and every span, is as
    before; the handler has no failure mode. *)
Theorem onEnd_unmatched fin st :
  activeSpans st !! end_requestId fin = None ->
  onEnd fin st = st /\
  size (activeSpans (onEnd fin st)) = size (activeSpans st) /\
  spans (onEnd fin st) = spans st.
Proof. intros E. unfold onEnd. by rewrite E. Qed.

(** The name [onStart] builds is the name of the specification. *)
Lemma onStart_name_spec event :
  join "." [databaseName event; collectionFor event; commandName event] =
  spec_spanName (databaseName event) (command event) (commandName event).
Proof.
  unfold spec_spanName, spec_collectionLabel, collectionFor, get_prop; simpl.
  destruct (command event !! commandName event) as [[]|]; reflexivity.
Qed.

(** C6.  The name [onStart] asks the tracer a span for, and the name of
    the span it is granted, is databaseName.collectionLabel.operationName,
    the label being the payload's value at the operation name when that is
    a string and "$cmd" otherwise; so a payload with insert = "cats" gives
    db.cats.insert and a payload with ping = 1 gives db.$cmd.ping. *)
Theorem onStart_span_name event st i t :
  createSpan (spec_spanName (databaseName event) (command event) (commandName event))
    "db" "mongodb" (commandName event) true (ins st) = (i, Some t) ->
  join "." [databaseName event; collectionFor event; commandName event] =
    spec_spanName (databaseName event) (command event) (commandName event) /\
  (exists s, spans (onStart event st) !! length (spans st) = Some s /\
     span_name s = spec_spanName (databaseName event) (command event) (commandName event)) /\
  (forall db documents,
     spec_spanName db {[ "insert" := VStr "cats"; "documents" := documents ]} "insert" =
     db +:+ ".cats.insert") /\
  (forall db, spec_spanName db {[ "ping" := VNum 1 ]} "ping" = db +:+ ".$cmd.ping").
Proof.
  intros E. split; [apply onStart_name_spec|]. split.
  - rewrite <- onStart_name_spec in E. rewrite (onStart_granted _ _ _ _ E); simpl.
    eexists. split; [by apply list_lookup_middle|]. simpl. apply onStart_name_spec.
  - split.
    + intros db documents. unfold spec_spanName, spec_collectionLabel, get_prop.
      by rewrite lookup_insert_eq.
    + intros db. unfold spec_spanName, spec_collectionLabel, get_prop.
      by rewrite lookup_singleton_eq.
Qed.

(** C7.  The pattern splits "127.0.0.1:27017" into host "127.0.0.1" and
    port "27017" and does not match "not-an-address".  When the address of
    a started event is a string that is not of the form host:port, the
    match is [null] and nothing fails: the granted span is stored in the
    table with its db context and without destination context, and one
    trace message is logged.  When it is of that form, the destination is
    built from the two captures. *)
Theorem destination_token_parser event st i t tok :
  createSpan (join "." [databaseName event; collectionFor event; commandName event])
    "db" "mongodb" (commandName event) true (ins st) = (i, Some t) ->
  js_or (address event) (connectionId event) = VStr tok ->
  HOSTNAME_PORT_RE_exec "127.0.0.1:27017" = Some ("127.0.0.1", "27017") /\
  HOSTNAME_PORT_RE_exec "not-an-address" = None /\
  ((forall host port, ~ host_port tok host port) ->
     HOSTNAME_PORT_RE_exec tok = None /\
     activeSpans (onStart event st) !! requestId event = Some (length (spans st)) /\
     logger (onStart event st) =
       logger st ++
         [{| log_level := Trace;
             log_format :=
               "could not set destination context on mongodb span from address=%j";
             log_args := [VStr tok] |}] /\
     exists s, spans (onStart event st) !! length (spans st) = Some s /\
       _destination s = None /\
       _db s = Some {| db_type := "mongodb"; db_instance := databaseName event |} /\
       ended s = []) /\
  (forall host port, host_port tok host port ->
     HOSTNAME_PORT_RE_exec tok = Some (host, port) /\
     logger (onStart event st) = logger st /\
     exists s, spans (onStart event st) !! length (spans st) = Some s /\
       _destination s = Some (getDBDestination host port)).
Proof.
  intros E A. split; [reflexivity|]. split; [reflexivity|].
  assert (M : address_match event = if truthy (VStr tok) then HOSTNAME_PORT_RE_exec tok else None).
  { unfold address_match. by rewrite A. }
  rewrite (onStart_granted _ _ _ _ E); simpl. split.
  - intros N%HOSTNAME_PORT_RE_exec_None. split; [done|].
    rewrite N in M. rewrite M, A.
    replace (if truthy (VStr tok) then None else None) with (@None (string * string))
      by (by destruct (truthy (VStr tok))).
    split; [apply lookup_insert_eq|]. split; [done|].
    eexists. split; [by apply list_lookup_middle|]. by simpl.
  - intros host port S%HOSTNAME_PORT_RE_exec_spec. split; [done|].
    rewrite S in M.
    destruct (truthy (VStr tok)) eqn:T.
    + rewrite M. split; [by rewrite app_nil_r|].
      eexists. split; [by apply list_lookup_middle|]. by simpl.
    + (* the empty string is not matched *)
      simpl in T. apply negb_false_iff, String.eqb_eq in T. subst tok. discriminate S.
Qed.

(** C10.  With [enabled] false the entry point hands the module back at
    once: module and state are untouched, whatever the version. *)
Theorem disabled_returns_module mongodb version st :
  module_exports mongodb version (VBool false) st = (mongodb, st).
Proof. reflexivity. Qed.

(** C8 (amended).  When the version does not satisfy ">=3.3 <6.0", the
    entry point hands the module back as it was (no listener, no wrapped
    method, [instrument] not called), whatever [enabled] is.  When
    instrumentation is enabled it logs one debug message and does nothing
    else; when it is not, nothing is logged and the state is untouched. *)
Theorem version_gate mongodb version enabled st :
  semver_satisfies version ">=3.3 <6.0" = false ->
  (module_exports mongodb version enabled st).1 = mongodb /\
  (truthy enabled = true ->
   (module_exports mongodb version enabled st).2 =
     logger_log Debug
       "mongodb version %s not instrumented (mongodb <3.3 is instrumented via mongodb-core)"
       [VStr version] st) /\
  (truthy enabled = false -> (module_exports mongodb version enabled st).2 = st).
Proof.
  intros V. unfold module_exports. rewrite V.
  destruct (truthy enabled); simpl; by repeat split.
Qed.

Lemma emit_nil mongodb name n st : listeners mongodb = [] -> emit mongodb name n st = st.
Proof. intros L. unfold emit. by rewrite L. Qed.

(** C9.  On a driver instrumented by this module, a 'succeeded' and a
    'failed' notification reach the same handlers, and notifications that
    agree on request id and duration leave the same state whatever their
    outcome: [onEnd] does not look at it. *)
Theorem onEnd_outcome_blind mongodb version enabled st0 id d o1 o2 st :
  listeners mongodb = [] ->
  handlers_for (module_exports mongodb version enabled st0).1 "succeeded" =
    handlers_for (module_exports mongodb version enabled st0).1 "failed" /\
  onEnd {| end_requestId := id; duration := d; outcome := o1 |} st =
    onEnd {| end_requestId := id; duration := d; outcome := o2 |} st /\
  emit (module_exports mongodb version enabled st0).1 "succeeded"
      (NEnded {| end_requestId := id; duration := d; outcome := o1 |}) st =
    emit (module_exports mongodb version enabled st0).1 "failed"
      (NEnded {| end_requestId := id; duration := d; outcome := o2 |}) st.
Proof.
  intros L. unfold module_exports.
  destruct (negb (truthy enabled)); simpl.
  { unfold handlers_for. rewrite !emit_nil, L by done. done. }
  destruct (negb (semver_satisfies version ">=3.3 <6.0")); simpl.
  { unfold handlers_for. rewrite !emit_nil, L by done. done. }
  destruct (instrument mongodb); simpl.
  - unfold handlers_for, emit; simpl. rewrite L. done.
  - destruct (MongoClient mongodb); simpl;
      unfold handlers_for; rewrite !emit_nil, L by done; done.
Qed.

(** ** [_get] on the path the wrapper asks for *)

Lemma _get_url db :
  _get db "s.client.s.url" =
    if truthy db then
      if truthy (get_prop db "s") then
        if truthy (get_prop (get_prop db "s") "client") then
          if truthy (get_prop (get_prop (get_prop db "s") "client") "s") then
            get_prop (get_prop (get_prop (get_prop db "s") "client") "s") "url"
          else get_prop (get_prop (get_prop db "s") "client") "s"
        else get_prop (get_prop db "s") "client"
      else get_prop db "s"
    else db.
Proof.
  unfold _get. cbn [String.length _get_fuel].
  destruct (truthy db); [|done]. cbn.
  destruct (truthy (get_prop db "s")); [|done]. cbn.
  destruct (truthy (get_prop (get_prop db "s") "client")); [|done]. cbn.
  destruct (truthy (get_prop (get_prop (get_prop db "s") "client") "s")); [|done]. cbn.
  by destruct (truthy (get_prop (get_prop (get_prop (get_prop db "s") "client") "s") "url")).
Qed.

Example _get_url_of_client :
  _get (VObj {[ "s" := VObj {[ "client" :=
          VObj {[ "s" := VObj {[ "url" := VStr "mongodb://localhost:27017" ]} ]} ]} ]})
       "s.client.s.url"
  = VStr "mongodb://localhost:27017".
Proof. reflexivity. Qed.

Example _get_url_missing : _get (VObj {[ "s" := VNull ]}) "s.client.s.url" = VNull.
Proof. reflexivity. Qed.

(** ** The interception strategy *)

Lemma apply_func_result f args st : (apply_func f args st).2 = call_user (base f) args.
Proof. revert st. induction f as [id|sp cb IH]; intros st; simpl; [done|apply IH]. Qed.

Lemma apply_func_spans_other f args st sp :
  sp ∉ captures f -> spans (apply_func f args st).1 !! sp = spans st !! sp.
Proof.
  revert st. induction f as [id|r cb IH]; intros st N; simpl; [done|].
  apply not_elem_of_cons in N as [Ne N].
  rewrite IH by done. rewrite lookup_span_end. by rewrite decide_False.
Qed.

(** The operation settles the same way whatever the state. *)
Lemma run_op_outcome op arguments st : (run_op op arguments st).2 = outcome_of op arguments.
Proof.
  revert st. induction op as [r|args k IH]; intros st; simpl; [done|].
  unfold last_answer. destruct (last arguments) as [[]|]; try apply IH.
  destruct (apply_func f args st) as [st' r] eqn:A.
  rewrite IH. f_equal. f_equal.
  change r with (st', r).2. rewrite <- A. apply apply_func_result.
Qed.

(** Without a callable last argument the operation cannot reach the state. *)
Lemma run_op_no_callback op arguments st :
  (forall f, last arguments ≠ Some (VFun f)) ->
  run_op op arguments st = (st, outcome_of op arguments).
Proof.
  intros N. revert st. induction op as [r|args k IH]; intros st; simpl; [done|].
  unfold last_answer. destruct (last arguments) as [[]|] eqn:L; try apply IH.
  by destruct (N f).
Qed.

Lemma ended_iter_with_end n (s : Span) :
  ended (Nat.iter n (with_end None) s) = ended s ++ replicate n None.
Proof.
  induction n as [|n IH]; simpl; [by rewrite app_nil_r|].
  rewrite IH, <- app_assoc. f_equal.
  change (replicate n None ++ [None]) with (replicate n (@None Q) ++ replicate 1 None).
  rewrite <- replicate_add. by replace (n + 1)%nat with (S n) by lia.
Qed.

(** With the closure of lines 156-159 as last argument, the span it
    captures receives one [end()] for each application. *)
Lemma run_op_callback_ends op arguments sp cb :
  last arguments = Some (VFun (SpanEndThen sp cb)) ->
  sp ∉ captures cb ->
  forall st s, spans st !! sp = Some s ->
  spans (run_op op arguments st).1 !! sp =
    Some (Nat.iter (invocations op arguments) (with_end None) s).
Proof.
  intros L N. induction op as [r|args k IH]; intros st s S; simpl; [done|].
  rewrite L; simpl.
  destruct (apply_func cb args (span_end sp None st)) as [st' r] eqn:A.
  assert (S' : spans st' !! sp = Some (with_end None s)).
  { change st' with (st', r).1. rewrite <- A, apply_func_spans_other by done.
    rewrite lookup_span_end, decide_True by done. by rewrite S. }
  assert (R : r = last_answer arguments args).
  { unfold last_answer. rewrite L; simpl.
    change r with (st', r).2. rewrite <- A. apply apply_func_result. }
  rewrite (IH _ _ _ S'), R. by rewrite <- Nat.iter_succ_r.
Qed.

Lemma annotate_span sp this st (s : Span) :
  spans st !! sp = Some s ->
  exists s', spans (annotate sp this st) !! sp = Some s' /\ ended s' = ended s.
Proof.
  intros S. unfold annotate.
  destruct (if truthy (_get (s_db this) "s.client.s.url")
            then match new_URL (_get (s_db this) "s.client.s.url") with
                 | Some (hostname, port) => Some (getDBDestination hostname port)
                 | None => None
                 end
            else None) as [d|]; [destruct (destination_truthy d)|].
  - unfold span_setDestinationContext, span_setDbContext, update_span; simpl.
    rewrite !list_lookup_alter_eq, S. by eexists.
  - unfold logger_log, span_setDbContext, update_span; simpl.
    rewrite !list_lookup_alter_eq, S. by eexists.
  - unfold logger_log, span_setDbContext, update_span; simpl.
    rewrite !list_lookup_alter_eq, S. by eexists.
Qed.

Lemma last_substituted (arguments : list value) v w :
  last arguments = Some v ->
  last (<[(length arguments - 1)%nat := w]> arguments) = Some w.
Proof.
  intros L. apply last_Some in L as [l' ->].
  rewrite length_app; simpl.
  replace (length l' + 1 - 1)%nat with (length l' + 0)%nat by lia.
  rewrite insert_app_r; simpl. apply last_snoc.
Qed.

Lemma settled_as_deliver d r : settled_as (deliver d r) = r.
Proof. by destruct d, r. Qed.

(** C5 (amended).  When the tracer refuses the span: [onStart] does
    nothing more (table, spans, log and console are as before, only the
    tracer has seen a request); the wrapper applies the original operation
    once, to the original [this] and arguments, and hands its caller a
    promise that settles as the original call completes -- resolved with
    what the original returns or its promise resolves to, rejected with
    what it throws or its promise rejects with -- whichever way the
    original hands over its outcome. *)
Theorem span_refused_bypass event st i origApi d apiName this arguments st2 i2 :
  createSpan (join "." [databaseName event; collectionFor event; commandName event])
    "db" "mongodb" (commandName event) true (ins st) = (i, None) ->
  createSpan
    (ns_db (s_namespace this) +:+ "." +:+ ns_collection (s_namespace this) +:+ "." +:+ apiName)
    "db" "mongodb" apiName true (ins st2) = (i2, None) ->
  (onStart event st = set_ins i st /\
   activeSpans (onStart event st) = activeSpans st /\
   spans (onStart event st) = spans st /\
   logger (onStart event st) = logger st /\
   console (onStart event st) = console st) /\
  wrappedCollectionApi origApi apiName this arguments st2 =
    run_op (origApi this arguments) arguments (set_ins i2 st2) /\
  (wrappedCollectionApi origApi apiName this arguments st2).2 =
    outcome_of (origApi this arguments) arguments /\
  call_wrappedCollectionApi origApi apiName this arguments st2 =
    ((call_origApi origApi d this arguments (set_ins i2 st2)).1,
     Promise (settled_as (call_origApi origApi d this arguments (set_ins i2 st2)).2)).
Proof.
  intros E1 E2. split.
  - by rewrite (onStart_refused _ _ _ E1).
  - unfold call_wrappedCollectionApi, call_origApi, wrappedCollectionApi.
    rewrite (ins_createSpan_refused _ _ _ _ _ _ _ E2).
    split; [done|]. split; [apply run_op_outcome|].
    destruct (run_op (origApi this arguments) arguments (set_ins i2 st2)) as [st' r].
    simpl. by rewrite settled_as_deliver.
Qed.

(** The promise path (lines 163-170): the operation runs on untouched
    arguments, then the span is ended, on return as on throw. *)
Lemma promise_path (op : Op) arguments sp (st : State) :
  (forall f, last arguments ≠ Some (VFun f)) ->
  match run_op op arguments st with
  | (st0, Return res) => (span_end sp None st0, Return res)
  | (st0, Throw err) => (span_end sp None st0, Throw err)
  end = (span_end sp None st, outcome_of op arguments).
Proof.
  intros N. rewrite (run_op_no_callback _ _ _ N).
  by destruct (outcome_of op arguments).
Qed.

Lemma granted_then_annotated name apiName this t i (st : State) :
  exists s,
    spans (annotate (length (spans st)) this
             (set_spans (spans st ++ [mkSpan _ name "db" "mongodb" apiName true t None None []])
                (set_ins i st)))
      !! length (spans st) = Some s /\
    ended s = [].
Proof.
  destruct (annotate_span (length (spans st)) this
              (set_spans (spans st ++ [mkSpan _ name "db" "mongodb" apiName true t None None []])
                 (set_ins i st))
              (mkSpan _ name "db" "mongodb" apiName true t None None []))
    as (s & S & E).
  - simpl. by apply list_lookup_middle.
  - by exists s.
Qed.

(** C2 (amended).  In a wrapped call for which a span is granted, the span
    is closed on one path only.  With a callable last argument the closure
    that ends the span is substituted for it and nothing is done after the
    operation; when the operation applies its last argument exactly once
    the span has received exactly one [end()].  Without a callable last
    argument the span is still open when the operation settles and is ended
    once, after it. *)
Theorem wrappedCollectionApi_closes_once origApi apiName this arguments st i t :
  createSpan
    (ns_db (s_namespace this) +:+ "." +:+ ns_collection (s_namespace this) +:+ "." +:+ apiName)
    "db" "mongodb" apiName true (ins st) = (i, Some t) ->
  (forall cb, last arguments = Some (VFun cb) ->
     Forall (fun r => (r < length (spans st))%nat) (captures cb) /\
     invocations
       (origApi this
          (<[(length arguments - 1)%nat := VFun (SpanEndThen (length (spans st)) cb)]> arguments))
       (<[(length arguments - 1)%nat := VFun (SpanEndThen (length (spans st)) cb)]> arguments)
     = 1%nat) ->
  (exists s,
     spans (wrappedCollectionApi origApi apiName this arguments st).1 !! length (spans st)
       = Some s /\
     ended s = [None]) /\
  match last arguments with
  | Some (VFun cb) =>
      wrappedCollectionApi origApi apiName this arguments st =
        run_op
          (origApi this
             (<[(length arguments - 1)%nat := VFun (SpanEndThen (length (spans st)) cb)]>
                arguments))
          (<[(length arguments - 1)%nat := VFun (SpanEndThen (length (spans st)) cb)]> arguments)
          (annotate (length (spans st)) this
             (set_spans
                (spans st ++
                   [mkSpan _
                      (ns_db (s_namespace this) +:+ "." +:+ ns_collection (s_namespace this)
                         +:+ "." +:+ apiName)
                      "db" "mongodb" apiName true t None None []])
                (set_ins i st)))
  | _ =>
      exists s0,
        spans
          (run_op (origApi this arguments) arguments
             (annotate (length (spans st)) this
                (set_spans
                   (spans st ++
                      [mkSpan _
                         (ns_db (s_namespace this) +:+ "." +:+ ns_collection (s_namespace this)
                            +:+ "." +:+ apiName)
                         "db" "mongodb" apiName true t None None []])
                   (set_ins i st)))).1
          !! length (spans st) = Some s0 /\
        ended s0 = [] /\
        wrappedCollectionApi origApi apiName this arguments st =
          (span_end (length (spans st)) None
             (run_op (origApi this arguments) arguments
                (annotate (length (spans st)) this
                   (set_spans
                      (spans st ++
                         [mkSpan _
                            (ns_db (s_namespace this) +:+ "." +:+ ns_collection (s_namespace this)
                               +:+ "." +:+ apiName)
                            "db" "mongodb" apiName true t None None []])
                      (set_ins i st)))).1,
           outcome_of (origApi this arguments) arguments)
  end.
Proof.
  intros E Hcb. unfold wrappedCollectionApi.
  rewrite (ins_createSpan_granted _ _ _ _ _ _ _ _ E).
  destruct (granted_then_annotated
              (ns_db (s_namespace this) +:+ "." +:+ ns_collection (s_namespace this)
                 +:+ "." +:+ apiName) apiName this t i st) as (s' & S' & E').
  set (st1 := annotate _ _ _) in *.
  assert (P : (forall f, last arguments ≠ Some (VFun f)) ->
    (exists s,
       spans (match run_op (origApi this arguments) arguments st1 with
              | (st0, Return res) => (span_end (length (spans st)) None st0, Return res)
              | (st0, Throw err) => (span_end (length (spans st)) None st0, Throw err)
              end).1 !! length (spans st) = Some s /\ ended s = [None]) /\
    exists s0,
      spans (run_op (origApi this arguments) arguments st1).1 !! length (spans st) = Some s0 /\
      ended s0 = [] /\
      match run_op (origApi this arguments) arguments st1 with
      | (st0, Return res) => (span_end (length (spans st)) None st0, Return res)
      | (st0, Throw err) => (span_end (length (spans st)) None st0, Throw err)
      end = (span_end (length (spans st)) None
               (run_op (origApi this arguments) arguments st1).1,
             outcome_of (origApi this arguments) arguments)).
  { intros N. rewrite (promise_path _ _ _ _ N), (run_op_no_callback _ _ _ N).
    cbn [fst]. split.
    - rewrite lookup_span_end, decide_True, S' by done.
      eexists; split; [done|]. cbn. by rewrite E'.
    - by exists s'. }
  destruct (last arguments) as [v|] eqn:L.
  2: { apply P. intros f. done. }
  destruct v as [| | | | | |f|]; try (apply P; intros f0; congruence).
  destruct (Hcb f eq_refl) as [W I].
  split; [|done].
  assert (L' := last_substituted arguments (VFun f)
                  (VFun (SpanEndThen (length (spans st)) f)) L).
  assert (N : length (spans st) ∉ captures f).
  { intros In. rewrite Forall_forall in W. specialize (W _ In). lia. }
  rewrite (run_op_callback_ends _ _ _ _ L' N _ _ S'), I.
  eexists; split; [done|]. cbn. by rewrite E'.
Qed.

(** C3 (amended).  In a wrapped call for which a span is granted and whose
    last argument is not callable, an operation that throws makes the
    wrapper throw the very same value, the span having received exactly
    one [end()] by then. *)
Theorem promise_style_rethrows origApi apiName this arguments st i t err :
  createSpan
    (ns_db (s_namespace this) +:+ "." +:+ ns_collection (s_namespace this) +:+ "." +:+ apiName)
    "db" "mongodb" apiName true (ins st) = (i, Some t) ->
  (forall f, last arguments ≠ Some (VFun f)) ->
  outcome_of (origApi this arguments) arguments = Throw err ->
  (wrappedCollectionApi origApi apiName this arguments st).2 = Throw err /\
  exists s,
    spans (wrappedCollectionApi origApi apiName this arguments st).1 !! length (spans st)
      = Some s /\
    ended s = [None].
Proof.
  intros E N O. unfold wrappedCollectionApi.
  rewrite (ins_createSpan_granted _ _ _ _ _ _ _ _ E).
  destruct (granted_then_annotated
              (ns_db (s_namespace this) +:+ "." +:+ ns_collection (s_namespace this)
                 +:+ "." +:+ apiName) apiName this t i st) as (s' & S' & E').
  set (st1 := annotate _ _ _) in *.
  assert (W : match last arguments with
              | Some (VFun cb) =>
                  run_op
                    (origApi this
                       (<[(length arguments - 1)%nat :=
                            VFun (SpanEndThen (length (spans st)) cb)]> arguments))
                    (<[(length arguments - 1)%nat :=
                         VFun (SpanEndThen (length (spans st)) cb)]> arguments) st1
              | _ =>
                  match run_op (origApi this arguments) arguments st1 with
                  | (st0, Return res) => (span_end (length (spans st)) None st0, Return res)
                  | (st0, Throw err) => (span_end (length (spans st)) None st0, Throw err)
                  end
              end = (span_end (length (spans st)) None st1, Throw err)).
  { assert (P := promise_path (origApi this arguments) arguments (length (spans st)) st1 N).
    rewrite O in P.
    destruct (last arguments) as [[| | | | | |f|]|]; try exact P.
    by destruct (N f). }
  rewrite W. cbn [fst snd]. split; [done|].
  rewrite lookup_span_end, decide_True, S' by done.
  eexists; split; [done|]. cbn. by rewrite E'.
Qed.

End Properties.

(** ** The statements on concrete inputs *)

Lemma onStart_onEnd_closes_span_witness :
  exists s,
    spans (@onEnd demo end_of_7 (@onStart demo (insert_cats "test") (demo_state [Some 5000%Q])))
      !! 0%nat = Some s /\
    ended s = [Some (5000 / 1000 + 3)%Q].
Proof.
  destruct (@onStart_onEnd_closes_span demo (insert_cats "test") end_of_7
              (demo_state [Some 5000%Q]) [] 5000%Q eq_refl eq_refl)
    as (_ & _ & (s & S & T & E) & _).
  exists s. split; [exact S|]. rewrite E, T. reflexivity.
Defined.

(** C1, as stated, fails: a span started at 5000 whose end event has
    duration 3 is ended at 5000 / 1000 + 3 = 8, not at 5000 + 3. *)
Lemma end_time_is_not_start_plus_duration :
  exists s e,
    spans (@onEnd demo end_of_7 (@onStart demo (insert_cats "test") (demo_state [Some 5000%Q])))
      !! 0%nat = Some s /\
    ended s = [Some e] /\
    (e == 8)%Q /\
    ~ (e == _timer_start s + duration end_of_7)%Q.
Proof.
  eexists _, _. split; [reflexivity|]. split; [reflexivity|]. split; [reflexivity|].
  discriminate.
Qed.

Lemma onEnd_unmatched_witness :
  @onEnd demo end_of_7 (demo_state []) = demo_state [].
Proof. apply (@onEnd_unmatched demo end_of_7 (demo_state [])). reflexivity. Defined.

Lemma span_refused_bypass_witness :
  @onStart demo (insert_cats "test") (demo_state [None]) = demo_state [] /\
  (@call_wrappedCollectionApi demo once_op "insertOne" cats
     [VObj ∅; VFun (SpanEndThen 0 (UserFn 0))]
     (@onStart demo (insert_cats "test") (demo_state [Some 5000%Q; None]))).2
    = Promise (Return VUndef) /\
  exists s,
    spans (@call_wrappedCollectionApi demo once_op "insertOne" cats
             [VObj ∅; VFun (SpanEndThen 0 (UserFn 0))]
             (@onStart demo (insert_cats "test") (demo_state [Some 5000%Q; None]))).1
      !! 0%nat = Some s /\
    ended s = [None].
Proof.
  destruct (@span_refused_bypass demo (insert_cats "test") (demo_state [None]) []
              once_op AtOnce "insertOne" cats [VObj ∅; VFun (SpanEndThen 0 (UserFn 0))]
              (@onStart demo (insert_cats "test") (demo_state [Some 5000%Q; None])) []
              eq_refl eq_refl) as ((S & _) & _ & _ & C).
  split; [exact S|]. rewrite C. split; [reflexivity|].
  eexists. split; reflexivity.
Defined.

(** C5, as stated, fails for the wrapper: when the span is refused and the
    original returns undefined at once, the caller of the wrapper gets a
    promise resolved with undefined, not undefined; when the original
    throws at once, the caller gets a rejected promise, not the exception. *)
Lemma refused_wrapper_hands_back_a_promise :
  (@call_origApi demo silent_op AtOnce cats [VObj ∅; VFun (UserFn 0)] (demo_state [])).2
    = Returns VUndef /\
  (@call_wrappedCollectionApi demo silent_op "insertOne" cats [VObj ∅; VFun (UserFn 0)]
     (demo_state [None])).2 = Promise (Return VUndef) /\
  (@call_wrappedCollectionApi demo silent_op "insertOne" cats [VObj ∅; VFun (UserFn 0)]
     (demo_state [None])).2 ≠
  (@call_origApi demo silent_op AtOnce cats [VObj ∅; VFun (UserFn 0)] (demo_state [])).2 /\
  (@call_origApi demo throwing_op AtOnce cats [VObj ∅] (demo_state [])).2
    = Throws (VRef 1) /\
  (@call_wrappedCollectionApi demo throwing_op "insertOne" cats [VObj ∅]
     (demo_state [None])).2 = Promise (Throw (VRef 1)).
Proof. repeat split. discriminate. Qed.

Lemma onStart_span_name_witness :
  exists s,
    spans (@onStart demo (insert_cats "test") (demo_state [Some 5000%Q])) !! 0%nat = Some s /\
    span_name s = "test.cats.insert".
Proof.
  destruct (@onStart_span_name demo (insert_cats "test") (demo_state [Some 5000%Q]) []
              5000%Q eq_refl) as (_ & (s & S & N) & _).
  exists s. split; [exact S|]. rewrite N. reflexivity.
Defined.

Lemma destination_token_parser_witness :
  exists s,
    spans (@onStart demo (ping "test") (demo_state [Some 5000%Q])) !! 0%nat = Some s /\
    _destination s = None.
Proof.
  destruct (@destination_token_parser demo (ping "test") (demo_state [Some 5000%Q]) []
              5000%Q "not-an-address" eq_refl eq_refl) as (_ & N & U & _).
  destruct (U (proj1 (HOSTNAME_PORT_RE_exec_None "not-an-address") N))
    as (_ & _ & _ & s & S & D & _).
  exists s. split; [exact S | exact D].
Defined.

Lemma version_gate_witness :
  @module_exports demo demo_mongodb3 "2.9.0" (VBool true) (demo_state []) =
    (demo_mongodb3,
     @logger_log demo Debug
       "mongodb version %s not instrumented (mongodb <3.3 is instrumented via mongodb-core)"
       [VStr "2.9.0"] (demo_state [])).
Proof.
  destruct (@version_gate demo demo_mongodb3 "2.9.0" (VBool true) (demo_state []) eq_refl)
    as (M & L & _).
  rewrite (surjective_pairing
             (@module_exports demo demo_mongodb3 "2.9.0" (VBool true) (demo_state []))).
  rewrite M, (L eq_refl). reflexivity.
Defined.

(** C8, as stated, fails: with [enabled] false, version 2.9.0 gets the
    module back but no diagnostic is logged. *)
Lemma disabled_out_of_range_logs_nothing :
  @semver_satisfies demo "2.9.0" ">=3.3 <6.0" = false /\
  @module_exports demo demo_mongodb3 "2.9.0" (VBool false) (demo_state []) =
    (demo_mongodb3, demo_state []) /\
  logger (@module_exports demo demo_mongodb3 "2.9.0" (VBool false) (demo_state [])).2 = [].
Proof. repeat split. Qed.

Lemma onEnd_outcome_blind_witness :
  @emit demo (@module_exports demo demo_mongodb3 "4.2.1" (VBool true) (demo_state [])).1
      "succeeded" (NEnded {| end_requestId := 7; duration := 3; outcome := Succeeded VUndef |})
      (@onStart demo (insert_cats "test") (demo_state [Some 5000%Q])) =
  @emit demo (@module_exports demo demo_mongodb3 "4.2.1" (VBool true) (demo_state [])).1
      "failed" (NEnded {| end_requestId := 7; duration := 3; outcome := Failed (VRef 1) |})
      (@onStart demo (insert_cats "test") (demo_state [Some 5000%Q])).
Proof.
  apply (@onEnd_outcome_blind demo demo_mongodb3 "4.2.1" (VBool true) (demo_state [])
           7 3%Q (Succeeded VUndef) (Failed (VRef 1))
           (@onStart demo (insert_cats "test") (demo_state [Some 5000%Q])) eq_refl).
Defined.

Lemma wrappedCollectionApi_closes_once_witness :
  exists s,
    spans (@wrappedCollectionApi demo once_op "insertOne" cats [VObj ∅; VFun (UserFn 0)]
             (demo_state [Some 5000%Q])).1 !! 0%nat = Some s /\
    ended s = [None].
Proof.
  refine (proj1 (@wrappedCollectionApi_closes_once demo once_op "insertOne" cats
                   [VObj ∅; VFun (UserFn 0)] (demo_state [Some 5000%Q]) [] 5000%Q eq_refl _)).
  intros cb L. split; [|reflexivity].
  injection L as <-. constructor.
Defined.

(** C2, as stated, fails: with a callback as last argument the span is
    ended as often as the operation applies the callback -- never when it
    returns without applying it, twice when it applies it twice. *)
Lemma callback_style_end_count_follows_operation :
  (exists s,
     spans (@wrappedCollectionApi demo silent_op "insertOne" cats [VObj ∅; VFun (UserFn 0)]
              (demo_state [Some 5000%Q])).1 !! 0%nat = Some s /\
     ended s = []) /\
  (exists s,
     spans (@wrappedCollectionApi demo twice_op "insertOne" cats [VObj ∅; VFun (UserFn 0)]
              (demo_state [Some 5000%Q])).1 !! 0%nat = Some s /\
     ended s = [None; None]).
Proof. split; eexists; split; reflexivity. Qed.

Lemma promise_style_rethrows_witness :
  (@wrappedCollectionApi demo throwing_op "insertOne" cats [VObj ∅]
     (demo_state [Some 5000%Q])).2 = Throw (VRef 1) /\
  exists s,
    spans (@wrappedCollectionApi demo throwing_op "insertOne" cats [VObj ∅]
             (demo_state [Some 5000%Q])).1 !! 0%nat = Some s /\
    ended s = [None].
Proof.
  apply (@promise_style_rethrows demo throwing_op "insertOne" cats [VObj ∅]
           (demo_state [Some 5000%Q]) [] 5000%Q (VRef 1) eq_refl).
  - intros f L. discriminate L.
  - reflexivity.
Defined.

(** C3, as stated, fails: when the tracer refuses the span there is no
    span to end; the operation's error reaches the caller and no [end()]
    has been invoked on anything. *)
Lemma refused_span_is_never_ended :
  (@wrappedCollectionApi demo throwing_op "insertOne" cats [VObj ∅]
     (demo_state [None])).2 = Throw (VRef 1) /\
  spans (@wrappedCollectionApi demo throwing_op "insertOne" cats [VObj ∅]
           (demo_state [None])).1 = [].
Proof. split; reflexivity. Qed.

(** * Further properties of the module *)

Section Further.
Context `{Collaborators}.

(** ** [_get] *)

Lemma length_append a b : String.length (a +:+ b) = (String.length a + String.length b)%nat.
Proof. induction a as [|c a IH]; simpl; [done|]. by rewrite IH. Qed.

Lemma split_on_nonempty c s : split_on c s <> [].
Proof.
  destruct s as [|a s]; simpl; [done|].
  destruct (Ascii.eqb a c); [done|]. by destruct (split_on c s).
Qed.

Lemma join_cons_cons sep x y l : join sep (x :: y :: l) = x +:+ sep +:+ join sep (y :: l).
Proof. reflexivity. Qed.

Lemma join_split_on s : join "." (split_on "." s) = s.
Proof.
  induction s as [|a s IH]; [done|]. cbn [split_on].
  destruct (Ascii.eqb_spec a ".") as [->|Ne].
  - destruct (split_on "." s) as [|w ws] eqn:E; [by destruct (split_on_nonempty "." s)|].
    rewrite join_cons_cons, IH. done.
  - destruct (split_on "." s) as [|w ws] eqn:E; [by destruct (split_on_nonempty "." s)|].
    destruct ws as [|w' ws].
    + simpl in *. by rewrite IH.
    + rewrite <- IH, !join_cons_cons. reflexivity.
Qed.

Lemma rest_of_path_shorter path :
  path <> "" ->
  (String.length (join "." (tl (split_on "." path))) < String.length path)%nat.
Proof.
  intros N. rewrite <- (join_split_on path) at 2.
  destruct (split_on "." path) as [|x [|y rest]] eqn:E.
  - by destruct (split_on_nonempty "." path).
  - simpl. assert (E' := join_split_on path). rewrite E in E'. simpl in E'. subst x.
    destruct path; [done|simpl; lia].
  - cbn [tl]. rewrite join_cons_cons, !length_append. simpl. lia.
Qed.

Lemma _get_fuel_enough n m obj path :
  (String.length path < n)%nat -> (String.length path < m)%nat ->
  _get_fuel n obj path = _get_fuel m obj path.
Proof.
  revert m obj path. induction n as [|n IH]; intros [|m] obj path Hn Hm; try lia.
  cbn [_get_fuel]. destruct (negb (truthy obj) || String.eqb path "") eqn:C; [done|].
  apply orb_false_iff in C as [_ C]. apply String.eqb_neq in C.
  assert (L := rest_of_path_shorter path C).
  apply IH; lia.
Qed.

Lemma _get_equation obj path :
  _get obj path =
    if negb (truthy obj) || String.eqb path "" then obj
    else _get (get_prop obj (hd "" (split_on "." path))) (join "." (tl (split_on "." path))).
Proof.
  unfold _get at 1. cbn [_get_fuel].
  destruct (negb (truthy obj) || String.eqb path "") eqn:C; [done|].
  apply orb_false_iff in C as [_ C]. apply String.eqb_neq in C.
  assert (L := rest_of_path_shorter path C).
  unfold _get. apply _get_fuel_enough; lia.
Qed.

(** X1.  The recursion of lines 39-48: [_get] returns [obj] when [obj] is
    falsy or the path is empty, and otherwise continues from [obj[key]]
    with the rest of the path, [key] being the first segment.  The
    recursion always ends: the rest of a non-empty path is shorter. *)
Theorem _get_unfold obj path :
  _get obj path =
    (if negb (truthy obj) || String.eqb path "" then obj
     else _get (get_prop obj (hd "" (split_on "." path)))
            (join "." (tl (split_on "." path)))) /\
  (path <> "" ->
   (String.length (join "." (tl (split_on "." path))) < String.length path)%nat).
Proof. split; [apply _get_equation | apply rest_of_path_shorter]. Qed.

Lemma split_on_dot_free k : dot_free k = true -> split_on "." k = [k].
Proof.
  unfold dot_free. induction k as [|a k IH]; simpl; [done|].
  intros [Ha Hk]%andb_true_iff. destruct (Ascii.eqb a "."); [done|]. by rewrite IH.
Qed.

Lemma split_on_dot_free_app k s :
  dot_free k = true -> split_on "." (k +:+ String "." s) = k :: split_on "." s.
Proof.
  unfold dot_free. induction k as [|a k IH]; simpl; [done|].
  intros [Ha Hk]%andb_true_iff. destruct (Ascii.eqb a "."); [done|]. by rewrite IH.
Qed.

(** X2.  Along a path of non-empty segments, [_get] follows the keys one
    by one and stops at the first falsy value, which it returns: a missing
    key gives undefined, never an exception. *)
Theorem _get_follows_keys obj keys :
  Forall (fun k => k <> "" /\ dot_free k = true) keys ->
  _get obj (join "." keys) = walk obj keys.
Proof.
  intros F. revert obj. induction F as [|k ks [Nk Dk] F IH]; intros obj.
  - rewrite _get_equation. simpl. by rewrite orb_true_r.
  - rewrite _get_equation.
    assert (Nj : String.eqb (join "." (k :: ks)) "" = false).
    { apply String.eqb_neq. destruct ks; simpl; [done|]. by destruct k. }
    rewrite Nj, orb_false_r. cbn [walk]. destruct (truthy obj); [|done]. cbn [negb].
    destruct ks as [|k' ks].
    + cbn [join]. rewrite (split_on_dot_free _ Dk). cbn [hd tl join walk].
      rewrite _get_equation. simpl. by rewrite orb_true_r.
    + rewrite join_cons_cons. simpl String.append.
      rewrite (split_on_dot_free_app _ _ Dk). cbn [hd tl].
      rewrite join_split_on. apply IH.
Qed.

(** ** The pattern, once more *)

Lemma digit_is_no_colon c : re_digit c = true -> negb (Ascii.eqb c ":") = true.
Proof. destruct c as [[] [] [] [] [] [] [] []]; done. Qed.

Lemma digits_colon_free p : string_forall re_digit p = true -> colon_free p = true.
Proof.
  unfold colon_free. induction p as [|c p IH]; simpl; [done|].
  intros [Hc Hp]%andb_true_iff. by rewrite (digit_is_no_colon _ Hc), IH.
Qed.

Lemma colon_free_no_colon a b : colon_free (a +:+ String ":" b) = false.
Proof.
  unfold colon_free. induction a as [|c a IH]; simpl in *; [done|].
  rewrite IH. by destruct (negb (Ascii.eqb c ":")).
Qed.

Lemma last_colon_unique h p h' p' :
  h +:+ String ":" p = h' +:+ String ":" p' ->
  colon_free p = true -> colon_free p' = true ->
  h = h' /\ p = p'.
Proof.
  revert h'. induction h as [|c h IH]; intros [|c' h']; simpl; intros E D D'.
  - by injection E.
  - injection E as <- ->. by rewrite colon_free_no_colon in D.
  - injection E as -> <-. by rewrite colon_free_no_colon in D'.
  - injection E as -> E. destruct (IH _ E D D') as [-> ->]. done.
Qed.

Lemma prefix_before_last_colon h p a b :
  h +:+ String ":" p = a +:+ String ":" b ->
  colon_free p = true ->
  (String.length a <= String.length h)%nat.
Proof.
  revert a. induction h as [|c h IH]; intros [|c' a]; simpl; intros E D; try lia.
  - injection E as <- ->. by rewrite colon_free_no_colon in D.
  - injection E as -> E. specialize (IH _ E D). lia.
Qed.

(** X3.  [HOSTNAME_PORT_RE.exec] succeeds with captures (host, port)
    exactly when the string is host, a colon and port, with host non-empty
    and free of line terminators and port a non-empty run of digits. *)
Theorem HOSTNAME_PORT_RE_sound_complete s host port :
  HOSTNAME_PORT_RE_exec s = Some (host, port) <-> host_port s host port.
Proof. apply HOSTNAME_PORT_RE_exec_spec. Qed.

(** X4.  The split is at the last colon: the port capture has no colon,
    and no colon of the string lies to the right of the host capture --
    so "::1:27017" gives host "::1". *)
Theorem host_is_up_to_last_colon s host port a b :
  HOSTNAME_PORT_RE_exec s = Some (host, port) ->
  s = a +:+ ":" +:+ b ->
  colon_free port = true /\ (String.length a <= String.length host)%nat.
Proof.
  intros (-> & _ & _ & _ & D)%HOSTNAME_PORT_RE_exec_spec E.
  apply digits_colon_free in D. split; [done|].
  simpl in E. by apply (prefix_before_last_colon _ _ _ _ E).
Qed.

(** X5.  Tokens the pattern leaves unresolved: the empty string, a string
    without colon, a string ending in a colon (empty port), a colon
    followed by digits only (empty host), and a string whose part after
    the last colon is not all digits. *)
Theorem unresolved_tokens :
  HOSTNAME_PORT_RE_exec "" = None /\
  (forall s, colon_free s = true -> HOSTNAME_PORT_RE_exec s = None) /\
  (forall host, HOSTNAME_PORT_RE_exec (host +:+ ":") = None) /\
  (forall port, string_forall re_digit port = true ->
     HOSTNAME_PORT_RE_exec (":" +:+ port) = None) /\
  (forall host port, colon_free port = true -> string_forall re_digit port = false ->
     HOSTNAME_PORT_RE_exec (host +:+ ":" +:+ port) = None).
Proof.
  split; [reflexivity|]. split; [|split; [|split]].
  - intros s C. apply HOSTNAME_PORT_RE_exec_None. intros h p (-> & _).
    simpl in C. by rewrite colon_free_no_colon in C.
  - intros host. apply HOSTNAME_PORT_RE_exec_None. intros h p (E & _ & _ & N & D).
    simpl in E. destruct (last_colon_unique _ _ _ _ E eq_refl (digits_colon_free _ D)) as [_ <-].
    done.
  - intros port D. apply HOSTNAME_PORT_RE_exec_None. intros h p (E & N & _ & _ & D').
    simpl in E.
    destruct (last_colon_unique "" _ _ _ E (digits_colon_free _ D) (digits_colon_free _ D'))
      as [<- _].
    done.
  - intros host port C D. apply HOSTNAME_PORT_RE_exec_None. intros h p (E & _ & _ & _ & D').
    simpl in E. destruct (last_colon_unique _ _ _ _ E C (digits_colon_free _ D')) as [_ <-].
    congruence.
Qed.

(** ** The table of active spans *)

Lemma activeSpans_onEnd fin st :
  activeSpans (onEnd fin st) = delete (end_requestId fin) (activeSpans st).
Proof.
  unfold onEnd. destruct (activeSpans st !! end_requestId fin) eqn:L.
  - simpl. by destruct (spans st !! n).
  - by rewrite delete_id.
Qed.

Lemma activeSpans_onStart event st :
  activeSpans (onStart event st) = activeSpans st \/
  activeSpans (onStart event st) = <[requestId event := length (spans st)]> (activeSpans st).
Proof.
  destruct (createSpan (join "." [databaseName event; collectionFor event; commandName event])
              "db" "mongodb" (commandName event) true (ins st)) as [i [t|]] eqn:E.
  - right. by rewrite (onStart_granted _ _ _ _ E).
  - left. by rewrite (onStart_refused _ _ _ E).
Qed.

(** X6.  A started event touches the table at its own request id at most,
    and an end event removes exactly its own request id: the ids in the
    table afterwards are those before without that id, whether or not it
    was there. *)
Theorem table_ids_after_notification n st :
  match n with
  | NStarted event =>
      dom (activeSpans st) ⊆ dom (activeSpans (handle n st)) /\
      dom (activeSpans (handle n st)) ⊆ dom (activeSpans st) ∪ {[requestId event]}
  | NEnded event =>
      dom (activeSpans (handle n st)) = dom (activeSpans st) ∖ {[end_requestId event]}
  end.
Proof.
  destruct n as [event|event]; simpl.
  - destruct (activeSpans_onStart event st) as [E|E]; rewrite E.
    + split; [done|apply union_subseteq_l].
    + rewrite dom_insert_L. split; [apply union_subseteq_r|].
      by rewrite (comm_L (∪)).
  - by rewrite activeSpans_onEnd, dom_delete_L.
Qed.

(** X7.  A second end event for the same request is a no-op: ending is
    idempotent, in any state. *)
Theorem onEnd_twice fin fin' st :
  end_requestId fin' = end_requestId fin ->
  onEnd fin' (onEnd fin st) = onEnd fin st.
Proof.
  intros E. unfold onEnd at 1. by rewrite E, activeSpans_onEnd, lookup_delete_eq.
Qed.

Lemma ids_of_matched_run ns :
  all_matched ns = true ->
  forall st id, id ∈ dom (activeSpans (handle_all ns st)) ->
    id ∈ dom (activeSpans st) /\ ends_later id ns = false.
Proof.
  unfold handle_all. induction ns as [|n ns IH]; intros M st id In; simpl in *; [done|].
  destruct n as [event|event].
  - apply andb_true_iff in M as [Later M].
    destruct (IH M _ _ In) as [In' NoEnd]. simpl in In'.
    destruct (activeSpans_onStart event st) as [E|E]; rewrite E in In'; [done|].
    rewrite dom_insert_L in In'. apply elem_of_union in In' as [->%elem_of_singleton|In'];
      [congruence|done].
  - destruct (IH M _ _ In) as [In' NoEnd]. simpl in In'.
    rewrite activeSpans_onEnd, dom_delete_L in In'.
    apply elem_of_difference in In' as [In' Ne]. split; [done|].
    rewrite NoEnd, orb_false_r. apply bool_decide_eq_false. set_solver.
Qed.

(** X8.  After any run of notifications in which every started event is
    followed by an end event of the same request, interleaved in any
    order and whatever the tracer grants, the table holds no id it did not
    hold before; from an empty table it is empty again. *)
Theorem matched_run_drains_table ns st :
  all_matched ns = true ->
  dom (activeSpans (handle_all ns st)) ⊆ dom (activeSpans st) /\
  (activeSpans st = ∅ -> activeSpans (handle_all ns st) = ∅).
Proof.
  intros M.
  assert (S : dom (activeSpans (handle_all ns st)) ⊆ dom (activeSpans st)).
  { intros id In. by apply (ids_of_matched_run ns M st id). }
  split; [done|]. intros E. rewrite E, dom_empty_L in S.
  apply dom_empty_iff_L. set_solver.
Qed.

(** ** The invariant of the table *)

Lemma handle_keeps_table_inv n st : table_inv st -> table_inv (handle n st).
Proof.
  intros (W & Inj & Open). destruct n as [event|event]; simpl.
  - destruct (createSpan (join "." [databaseName event; collectionFor event; commandName event])
                "db" "mongodb" (commandName event) true (ins st)) as [i [t|]] eqn:E.
    2: { by rewrite (onStart_refused _ _ _ E). }
    rewrite (onStart_granted _ _ _ _ E).
    unfold table_inv, table_wf; simpl. split; [|split].
    + intros id sp L. rewrite length_app; simpl.
      destruct (decide (id = requestId event)) as [->|Ne].
      * rewrite lookup_insert_eq in L. injection L as <-. lia.
      * rewrite lookup_insert_ne in L by congruence. apply W in L. lia.
    + intros id id' r L L'.
      destruct (decide (id = requestId event)) as [->|Ne];
        destruct (decide (id' = requestId event)) as [->|Ne']; [done| | |].
      * rewrite lookup_insert_eq in L. injection L as <-.
        rewrite lookup_insert_ne in L' by congruence. apply W in L'. lia.
      * rewrite lookup_insert_eq in L'. injection L' as <-.
        rewrite lookup_insert_ne in L by congruence. apply W in L. lia.
      * rewrite lookup_insert_ne in L, L' by congruence. by apply (Inj _ _ r).
    + intros id r s L S.
      destruct (decide (id = requestId event)) as [->|Ne].
      * rewrite lookup_insert_eq in L. injection L as <-.
        rewrite list_lookup_middle in S by done. by injection S as <-.
      * rewrite lookup_insert_ne in L by congruence.
        rewrite lookup_app_l in S by (by apply (W id)). by apply (Open id r).
  - unfold onEnd. destruct (activeSpans st !! end_requestId event) as [r|] eqn:L; [|done].
    simpl. destruct (spans st !! r) as [s0|] eqn:S0.
    + unfold table_inv, table_wf, span_end, update_span; simpl. split; [|split].
      * intros id sp [_ L']%lookup_delete_Some. rewrite length_alter. by apply (W id).
      * intros id id' r' [_ L1]%lookup_delete_Some [_ L2]%lookup_delete_Some.
        by apply (Inj _ _ r').
      * intros id r' s [Ne L']%lookup_delete_Some S.
        assert (Nr : r ≠ r'). { intros <-. by apply Ne, (Inj _ _ r). }
        rewrite list_lookup_alter_ne in S by done. by apply (Open id r').
    + unfold table_inv, table_wf; simpl. split; [|split].
      * intros id sp [_ L']%lookup_delete_Some. by apply (W id).
      * intros id id' r' [_ L1]%lookup_delete_Some [_ L2]%lookup_delete_Some.
        by apply (Inj _ _ r').
      * intros id r' s [Ne L']%lookup_delete_Some S. by apply (Open id r').
Qed.

Lemma handle_keeps_once n st :
  table_inv st -> ended_at_most_once st -> ended_at_most_once (handle n st).
Proof.
  intros (W & Inj & Open) Once. destruct n as [event|event]; simpl.
  - destruct (createSpan (join "." [databaseName event; collectionFor event; commandName event])
                "db" "mongodb" (commandName event) true (ins st)) as [i [t|]] eqn:E.
    2: { by rewrite (onStart_refused _ _ _ E). }
    rewrite (onStart_granted _ _ _ _ E). unfold ended_at_most_once; simpl.
    intros r s [S|[_ S]]%lookup_app_Some; [by apply (Once r)|].
    apply list_lookup_singleton_Some in S as [_ <-]. simpl. lia.
  - unfold onEnd. destruct (activeSpans st !! end_requestId event) as [r|] eqn:L; [|done].
    simpl. destruct (spans st !! r) as [s0|] eqn:S0; [|done].
    unfold ended_at_most_once, span_end, update_span; simpl.
    intros r' s S. destruct (decide (r = r')) as [<-|Nr].
    + rewrite list_lookup_alter_eq, S0 in S. injection S as <-. simpl.
      rewrite (Open _ _ _ L S0). simpl. lia.
    + rewrite list_lookup_alter_ne in S by done. by apply (Once r').
Qed.

(** X9.  Every run of notifications keeps the invariant of the table:
    each entry refers to a span of the store, no two requests share a
    span, and every span in the table has not been ended. *)
Theorem table_invariant_kept ns st : table_inv st -> table_inv (handle_all ns st).
Proof.
  unfold handle_all. revert st. induction ns as [|n ns IH]; intros st I; simpl; [done|].
  by apply IH, handle_keeps_table_inv.
Qed.

Lemma handle_all_keeps_once ns st :
  table_inv st -> ended_at_most_once st ->
  table_inv (handle_all ns st) /\ ended_at_most_once (handle_all ns st).
Proof.
  unfold handle_all. revert st. induction ns as [|n ns IH]; intros st I O; simpl; [done|].
  apply IH; [by apply handle_keeps_table_inv | by apply handle_keeps_once].
Qed.

(** X10.  The event strategy never ends a span twice: if no span of the
    store has been ended more than once, none has after any run of
    notifications, duplicated and unmatched ones included. *)
Theorem no_span_ended_twice ns st :
  table_inv st -> ended_at_most_once st -> ended_at_most_once (handle_all ns st).
Proof. intros I O. by destruct (handle_all_keeps_once ns st I O). Qed.

(** ** Started events: reuse of an id, and where the address comes from *)


(** X12.  When the address of a started event is truthy, the connection
    id plays no part: table, spans and log come out the same whatever the
    connection id is -- also when the address does not parse, in which case
    the connection id is not tried. *)
Theorem connectionId_ignored_when_address_given a c c' R db cmd payload st :
  truthy a = true ->
  activeSpans
    (onStart {| address := a; connectionId := c; requestId := R; databaseName := db;
                commandName := cmd; command := payload |} st) =
  activeSpans
    (onStart {| address := a; connectionId := c'; requestId := R; databaseName := db;
                commandName := cmd; command := payload |} st) /\
  spans
    (onStart {| address := a; connectionId := c; requestId := R; databaseName := db;
                commandName := cmd; command := payload |} st) =
  spans
    (onStart {| address := a; connectionId := c'; requestId := R; databaseName := db;
                commandName := cmd; command := payload |} st) /\
  logger
    (onStart {| address := a; connectionId := c; requestId := R; databaseName := db;
                commandName := cmd; command := payload |} st) =
  logger
    (onStart {| address := a; connectionId := c'; requestId := R; databaseName := db;
                commandName := cmd; command := payload |} st).
Proof.
  intros T.
  set (ev := {| address := a; connectionId := c; requestId := R; databaseName := db;
                commandName := cmd; command := payload |}).
  set (ev' := {| address := a; connectionId := c'; requestId := R; databaseName := db;
                 commandName := cmd; command := payload |}).
  destruct (createSpan (join "." [databaseName ev; collectionFor ev; commandName ev])
              "db" "mongodb" (commandName ev) true (ins st)) as [i [t|]] eqn:E.
  - rewrite (onStart_granted ev _ _ _ E), (onStart_granted ev' st i t) by exact E.
    unfold address_match, js_or; simpl. by rewrite T.
  - rewrite (onStart_refused ev _ _ E), (onStart_refused ev' st i) by exact E. done.
Qed.

(** X13.  When the address is falsy (missing, or the empty string), the
    connection id stands in for it: table, spans and log are those of the
    same event with the connection id as its address. *)
Theorem connectionId_used_when_address_missing a c R db cmd payload st :
  truthy a = false ->
  activeSpans
    (onStart {| address := a; connectionId := c; requestId := R; databaseName := db;
                commandName := cmd; command := payload |} st) =
  activeSpans
    (onStart {| address := c; connectionId := c; requestId := R; databaseName := db;
                commandName := cmd; command := payload |} st) /\
  spans
    (onStart {| address := a; connectionId := c; requestId := R; databaseName := db;
                commandName := cmd; command := payload |} st) =
  spans
    (onStart {| address := c; connectionId := c; requestId := R; databaseName := db;
                commandName := cmd; command := payload |} st) /\
  logger
    (onStart {| address := a; connectionId := c; requestId := R; databaseName := db;
                commandName := cmd; command := payload |} st) =
  logger
    (onStart {| address := c; connectionId := c; requestId := R; databaseName := db;
                commandName := cmd; command := payload |} st).
Proof.
  intros T.
  set (ev := {| address := a; connectionId := c; requestId := R; databaseName := db;
                commandName := cmd; command := payload |}).
  set (ev' := {| address := c; connectionId := c; requestId := R; databaseName := db;
                 commandName := cmd; command := payload |}).
  assert (J : js_or c c = c) by (unfold js_or; by destruct (truthy c)).
  destruct (createSpan (join "." [databaseName ev; collectionFor ev; commandName ev])
              "db" "mongodb" (commandName ev) true (ins st)) as [i [t|]] eqn:E.
  - rewrite (onStart_granted ev _ _ _ E), (onStart_granted ev' st i t) by exact E.
    unfold address_match; simpl. rewrite J. unfold js_or. by rewrite T.
  - rewrite (onStart_refused ev _ _ E), (onStart_refused ev' st i) by exact E. done.
Qed.

(** ** Installation *)

(** X14.  Installation never activates both strategies: it registers
    listeners or wraps the database accessor, not both; a driver that
    exposes [instrument] gets the listeners even when it also exposes
    [MongoClient]; and the two exports themselves are never changed. *)
Theorem one_strategy_at_most mongodb version enabled st :
  instrument (module_exports mongodb version enabled st).1 = instrument mongodb /\
  MongoClient (module_exports mongodb version enabled st).1 = MongoClient mongodb /\
  (listeners (module_exports mongodb version enabled st).1 = listeners mongodb \/
   MongoClient_prototype_db (module_exports mongodb version enabled st).1
     = MongoClient_prototype_db mongodb) /\
  (instrument mongodb = true ->
   MongoClient_prototype_db (module_exports mongodb version enabled st).1
     = MongoClient_prototype_db mongodb) /\
  (instrument mongodb = false ->
   listeners (module_exports mongodb version enabled st).1 = listeners mongodb /\
   instrument_calls (module_exports mongodb version enabled st).1 = instrument_calls mongodb).
Proof.
  unfold module_exports.
  destruct (negb (truthy enabled)); [simpl; naive_solver|].
  destruct (negb (semver_satisfies version ">=3.3 <6.0")); [simpl; naive_solver|].
  destruct (instrument mongodb) eqn:I; simpl; [naive_solver|].
  destruct (MongoClient mongodb) eqn:M; simpl; naive_solver.
Qed.

(** X15.  On a driver instrumented through [instrument], each notification
    reaches its handler exactly once: 'started' runs [onStart], 'succeeded'
    and 'failed' run [onEnd], and any other notification name runs
    nothing. *)
Theorem notifications_handled_once mongodb version enabled st0 event fin name n st :
  truthy enabled = true ->
  semver_satisfies version ">=3.3 <6.0" = true ->
  instrument mongodb = true ->
  listeners mongodb = [] ->
  name ≠ "started" -> name ≠ "succeeded" -> name ≠ "failed" ->
  emit (module_exports mongodb version enabled st0).1 "started" (NStarted event) st
    = onStart event st /\
  emit (module_exports mongodb version enabled st0).1 "succeeded" (NEnded fin) st
    = onEnd fin st /\
  emit (module_exports mongodb version enabled st0).1 "failed" (NEnded fin) st
    = onEnd fin st /\
  emit (module_exports mongodb version enabled st0).1 name n st = st /\
  activeSpans (module_exports mongodb version enabled st0).2 = ∅.
Proof.
  intros T V I L N1 N2 N3. unfold module_exports. rewrite T, V, I.
  cbn [negb fst snd]. unfold emit. cbn [listeners]. rewrite L.
  cbn [app fold_left fst snd].
  assert (F1 : String.eqb "started" name = false) by (apply String.eqb_neq; congruence).
  assert (F2 : String.eqb "succeeded" name = false) by (apply String.eqb_neq; congruence).
  assert (F3 : String.eqb "failed" name = false) by (apply String.eqb_neq; congruence).
  rewrite F1, F2, F3. done.
Qed.

(** ** The wrapped collection operations, in full *)

Lemma annotate_granted name apiName this t i (st : State) :
  annotate (length (spans st)) this
    (set_spans (spans st ++ [mkSpan _ name "db" "mongodb" apiName true t None None []])
       (set_ins i st)) =
  mkState _ i (activeSpans st)
    (spans st ++
       [mkSpan _ name "db" "mongodb" apiName true t
          (Some {| db_type := "mongodb"; db_instance := ns_db (s_namespace this) |})
          (url_destination this) []])
    (logger st ++
       match url_destination this with
       | Some _ => []
       | None =>
           [{| log_level := Trace;
               log_format :=
                 "could not set destination context on mongodb span from address=%j";
               log_args := [_get (s_db this) "s.client.s.url"] |}]
       end)
    (console st).
Proof.
  unfold annotate, url_destination.
  destruct (if truthy (_get (s_db this) "s.client.s.url")
            then match new_URL (_get (s_db this) "s.client.s.url") with
                 | Some (hostname, port) => Some (getDBDestination hostname port)
                 | None => None
                 end
            else None) as [d|]; [destruct (destination_truthy d)|].
  - unfold span_setDestinationContext, span_setDbContext, update_span; simpl.
    rewrite !alter_new_span. by rewrite app_nil_r.
  - unfold logger_log, span_setDbContext, update_span; simpl.
    by rewrite alter_new_span.
  - unfold logger_log, span_setDbContext, update_span; simpl.
    by rewrite alter_new_span.
Qed.

(** X16.  A wrapped call without callback, for which a span is granted,
    settles exactly as the operation settles, by return as by throw, and
    its whole effect is one new span: named db.collection.operation, of
    type db/mongodb, with its db context, with the destination built from
    the client's URL when the URL parses and that destination is truthy
    (one trace message otherwise), ended once without argument.  The table, the console and the earlier spans are
    untouched. *)
Theorem promise_style_effect origApi apiName this arguments st i t :
  createSpan
    (ns_db (s_namespace this) +:+ "." +:+ ns_collection (s_namespace this) +:+ "." +:+ apiName)
    "db" "mongodb" apiName true (ins st) = (i, Some t) ->
  (forall f, last arguments ≠ Some (VFun f)) ->
  wrappedCollectionApi origApi apiName this arguments st =
    (mkState _ i (activeSpans st)
       (spans st ++
          [mkSpan _
             (ns_db (s_namespace this) +:+ "." +:+ ns_collection (s_namespace this)
                +:+ "." +:+ apiName)
             "db" "mongodb" apiName true t
             (Some {| db_type := "mongodb"; db_instance := ns_db (s_namespace this) |})
             (url_destination this) [None]])
       (logger st ++
          match url_destination this with
          | Some _ => []
          | None =>
              [{| log_level := Trace;
                  log_format :=
                    "could not set destination context on mongodb span from address=%j";
                  log_args := [_get (s_db this) "s.client.s.url"] |}]
          end)
       (console st),
     outcome_of (origApi this arguments) arguments).
Proof.
  intros E N. unfold wrappedCollectionApi.
  rewrite (ins_createSpan_granted _ _ _ _ _ _ _ _ E).
  assert (P := fun st1 =>
    promise_path (origApi this arguments) arguments (length (spans st)) st1 N).
  assert (W : forall st1 : State,
    match last arguments with
    | Some (VFun cb) =>
        run_op
          (origApi this
             (<[(length arguments - 1)%nat := VFun (SpanEndThen (length (spans st)) cb)]>
                arguments))
          (<[(length arguments - 1)%nat := VFun (SpanEndThen (length (spans st)) cb)]> arguments)
          st1
    | _ =>
        match run_op (origApi this arguments) arguments st1 with
        | (st0, Return res) => (span_end (length (spans st)) None st0, Return res)
        | (st0, Throw err) => (span_end (length (spans st)) None st0, Throw err)
        end
    end = (span_end (length (spans st)) None st1, outcome_of (origApi this arguments) arguments)).
  { intros st1. specialize (P st1).
    destruct (last arguments) as [[| | | | | |f|]|]; try exact P. by destruct (N f). }
  rewrite W, annotate_granted. f_equal.
  unfold span_end, update_span; simpl. by rewrite alter_new_span.
Qed.

(** X17.  A wrapped call with a callback, for which a span is granted,
    hands the operation the same arguments but for the last one, which
    answers as the caller's callback does; the call settles as the
    operation does, and the span has received one [end()] for each time
    the operation applied the callback. *)
Theorem callback_style_ends_per_invocation origApi apiName this arguments st i t cb :
  createSpan
    (ns_db (s_namespace this) +:+ "." +:+ ns_collection (s_namespace this) +:+ "." +:+ apiName)
    "db" "mongodb" apiName true (ins st) = (i, Some t) ->
  last arguments = Some (VFun cb) ->
  Forall (fun r => (r < length (spans st))%nat) (captures cb) ->
  length (<[(length arguments - 1)%nat := VFun (SpanEndThen (length (spans st)) cb)]> arguments)
    = length arguments /\
  (forall k, k ≠ (length arguments - 1)%nat ->
     (<[(length arguments - 1)%nat := VFun (SpanEndThen (length (spans st)) cb)]> arguments) !! k
       = arguments !! k) /\
  (forall args,
     last_answer
       (<[(length arguments - 1)%nat := VFun (SpanEndThen (length (spans st)) cb)]> arguments)
       args
     = last_answer arguments args) /\
  (wrappedCollectionApi origApi apiName this arguments st).2 =
    outcome_of
      (origApi this
         (<[(length arguments - 1)%nat := VFun (SpanEndThen (length (spans st)) cb)]> arguments))
      (<[(length arguments - 1)%nat := VFun (SpanEndThen (length (spans st)) cb)]> arguments) /\
  exists s,
    spans (wrappedCollectionApi origApi apiName this arguments st).1 !! length (spans st)
      = Some s /\
    ended s =
      replicate
        (invocations
           (origApi this
              (<[(length arguments - 1)%nat := VFun (SpanEndThen (length (spans st)) cb)]>
                 arguments))
           (<[(length arguments - 1)%nat := VFun (SpanEndThen (length (spans st)) cb)]>
              arguments))
        None.
Proof.
  intros E L W.
  assert (L' := last_substituted arguments (VFun cb)
                  (VFun (SpanEndThen (length (spans st)) cb)) L).
  split; [apply length_insert|]. split.
  { intros k Nk. by apply list_lookup_insert_ne. }
  split.
  { intros args. unfold last_answer. by rewrite L', L. }
  unfold wrappedCollectionApi.
  rewrite (ins_createSpan_granted _ _ _ _ _ _ _ _ E), L.
  split; [apply run_op_outcome|].
  destruct (granted_then_annotated
              (ns_db (s_namespace this) +:+ "." +:+ ns_collection (s_namespace this)
                 +:+ "." +:+ apiName) apiName this t i st) as (s' & S' & E').
  assert (N : length (spans st) ∉ captures cb).
  { intros In. rewrite Forall_forall in W. specialize (W _ In). lia. }
  rewrite (run_op_callback_ends _ _ _ _ L' N _ _ S').
  eexists; split; [done|]. by rewrite ended_iter_with_end, E'.
Qed.

(** ** [wrapNext] *)

(** X18.  The wrapped [next] of a cursor settles as the original does, and
    adds nothing to what the original did but one line on the console when
    it returns -- none when it throws.  It asks for no span and ends none. *)
Theorem wrappedNext_only_logs origNext arguments st :
  (wrappedNext origNext arguments st).2 = outcome_of (origNext arguments) arguments /\
  ins (wrappedNext origNext arguments st).1 = ins (run_op (origNext arguments) arguments st).1 /\
  activeSpans (wrappedNext origNext arguments st).1
    = activeSpans (run_op (origNext arguments) arguments st).1 /\
  spans (wrappedNext origNext arguments st).1
    = spans (run_op (origNext arguments) arguments st).1 /\
  logger (wrappedNext origNext arguments st).1
    = logger (run_op (origNext arguments) arguments st).1 /\
  console (wrappedNext origNext arguments st).1 =
    console (run_op (origNext arguments) arguments st).1 ++
      match outcome_of (origNext arguments) arguments with
      | Return _ => [ConsoleText "next called"]
      | Throw _ => []
      end.
Proof.
  unfold wrappedNext. rewrite <- (run_op_outcome (origNext arguments) arguments st).
  destruct (run_op (origNext arguments) arguments st) as [st' [res|err]]; simpl.
  - done.
  - by rewrite app_nil_r.
Qed.

(** ** [wrapCollection] *)

Lemma lookup_shimmer_wrap_at coll n w name :
  shimmer_wrap_at coll n w !! name =
    if decide (n = name) then wrapped_slot w (coll !! name) else coll !! name.
Proof.
  unfold shimmer_wrap_at. case_decide as D.
  - subst. destruct (coll !! name) as [[m|v]|] eqn:E; simpl; [|done..].
    by rewrite lookup_insert_eq.
  - destruct (coll !! n) as [[m|v]|] eqn:E; [|done..].
    by rewrite lookup_insert_ne.
Qed.

Lemma guarded_wrap coll n w :
  (if is_function coll n then shimmer_wrap_at coll n w else coll) = shimmer_wrap_at coll n w.
Proof. unfold is_function, shimmer_wrap_at. by destruct (coll !! n) as [[]|]. Qed.

Lemma lookup_wrap_loop w l coll name :
  NoDup l ->
  fold_left
    (fun coll methodName =>
       if is_function coll methodName then shimmer_wrap_at coll methodName w else coll)
    l coll !! name =
  if decide (name ∈ l) then wrapped_slot w (coll !! name) else coll !! name.
Proof.
  intros ND. revert coll. induction ND as [|n l Nin ND IH]; intros coll; cbn [fold_left].
  - by rewrite decide_False by apply not_elem_of_nil.
  - rewrite IH, guarded_wrap, lookup_shimmer_wrap_at.
    destruct (decide (n = name)) as [->|Ne].
    + rewrite decide_False by done. by rewrite decide_True by left.
    + destruct (decide (name ∈ l)) as [In|Nin'].
      * by rewrite decide_True by (by right).
      * rewrite decide_False; [done|].
        intros [->|In]%elem_of_cons; done.
Qed.

Lemma COLLECTION_METHODS_NoDup : NoDup COLLECTION_METHODS.
Proof. apply (bool_decide_unpack _). by vm_compute. Qed.

Lemma find_not_listed : "find" ∉ COLLECTION_METHODS.
Proof. apply (bool_decide_unpack _). by vm_compute. Qed.

Lemma wrappedCollection_lookup coll name :
  wrappedCollection coll !! name =
    if decide (name = "find") then wrapped_slot W_wrapFind (coll !! name)
    else if decide (name ∈ COLLECTION_METHODS)
         then wrapped_slot W_wrapCollectionApi (coll !! name)
         else coll !! name.
Proof.
  unfold wrappedCollection.
  rewrite lookup_shimmer_wrap_at, (lookup_wrap_loop _ _ _ _ COLLECTION_METHODS_NoDup).
  destruct (decide (name = "find")) as [->|Ne].
  - rewrite decide_True by done. by rewrite decide_False by apply find_not_listed.
  - by rewrite decide_False by congruence.
Qed.

(** X19.  Wrapping a collection handle touches only the nine listed
    operations and [find]: a listed operation that is a function is
    wrapped once by [wrapCollectionApi], [find] once by [wrapFind]; every
    other property, and every property that is not a function, is left as
    it is, and no property is added or removed. *)
Theorem wrappedCollection_wraps_listed_only coll :
  (forall name, name ∉ COLLECTION_METHODS -> name ≠ "find" ->
     wrappedCollection coll !! name = coll !! name) /\
  (forall name m, name ∈ COLLECTION_METHODS -> coll !! name = Some (SFun m) ->
     wrappedCollection coll !! name = Some (SFun (Wrapped W_wrapCollectionApi m))) /\
  (forall m, coll !! "find" = Some (SFun m) ->
     wrappedCollection coll !! "find" = Some (SFun (Wrapped W_wrapFind m))) /\
  (forall name, is_function coll name = false ->
     wrappedCollection coll !! name = coll !! name) /\
  dom (wrappedCollection coll) = dom coll.
Proof.
  split; [|split; [|split; [|split]]].
  - intros name N F. rewrite wrappedCollection_lookup.
    by rewrite decide_False, decide_False.
  - intros name m In E. rewrite wrappedCollection_lookup.
    rewrite decide_False by (intros ->; by apply find_not_listed).
    by rewrite decide_True, E.
  - intros m E. rewrite wrappedCollection_lookup. by rewrite decide_True, E.
  - intros name F. rewrite wrappedCollection_lookup. unfold is_function in F.
    destruct (coll !! name) as [[m|v]|]; [done|..]; by repeat case_decide.
  - apply set_eq. intros name. rewrite !elem_of_dom, wrappedCollection_lookup.
    destruct (coll !! name) as [[m|v]|]; repeat case_decide; simpl;
      split; intros [? ?]; try done; by eexists.
Qed.

Lemma table_inv_empty (st : State) : activeSpans st = ∅ -> table_inv st.
Proof.
  intros E. unfold table_inv, table_wf. rewrite E.
  split; [|split]; intros; by rewrite lookup_empty in *.
Qed.

Lemma ended_at_most_once_empty (st : State) : spans st = [] -> ended_at_most_once st.
Proof. intros E r s. rewrite E. by rewrite lookup_nil. Qed.

End Further.

(** ** The further statements on concrete inputs *)

Lemma _get_unfold_witness :
  (String.length (join "." (tl (split_on "." "s.client.s.url")))
   < String.length "s.client.s.url")%nat.
Proof. apply (proj2 (_get_unfold client_db "s.client.s.url")). discriminate. Defined.

Lemma _get_follows_keys_witness :
  _get client_db "s.client.s.url" = VStr "mongodb://localhost:27017".
Proof.
  refine (eq_trans (_get_follows_keys client_db ["s"; "client"; "s"; "url"] _) eq_refl).
  repeat (constructor; [split; [discriminate|reflexivity]|]). constructor.
Defined.

Lemma host_is_up_to_last_colon_witness :
  colon_free "27017" = true /\ (String.length ":" <= String.length "::1")%nat.
Proof.
  apply (host_is_up_to_last_colon "::1:27017" "::1" "27017" ":" "1:27017"); reflexivity.
Defined.

Lemma unresolved_tokens_witness :
  HOSTNAME_PORT_RE_exec "localhost" = None /\
  HOSTNAME_PORT_RE_exec "localhost:" = None /\
  HOSTNAME_PORT_RE_exec ":27017" = None /\
  HOSTNAME_PORT_RE_exec "localhost:27017a" = None.
Proof.
  destruct unresolved_tokens as (_ & A & B & C & D).
  split; [apply A; reflexivity|].
  split; [apply (B "localhost")|].
  split; [apply (C "27017"); reflexivity|].
  apply (D "localhost" "27017a"); reflexivity.
Defined.

Lemma onEnd_twice_witness :
  @onEnd demo end_of_7
    (@onEnd demo end_of_7 (@onStart demo (insert_cats "test") (demo_state [Some 5000%Q]))) =
  @onEnd demo end_of_7 (@onStart demo (insert_cats "test") (demo_state [Some 5000%Q])).
Proof.
  apply (@onEnd_twice demo end_of_7 end_of_7
           (@onStart demo (insert_cats "test") (demo_state [Some 5000%Q]))).
  reflexivity.
Defined.

Lemma matched_run_drains_table_witness :
  activeSpans
    (@handle_all demo
       [NStarted (insert_cats "test"); NStarted (ping "test"); NEnded end_of_7;
        NEnded end_of_8]
       (demo_state [Some 5000%Q; None])) = ∅.
Proof.
  apply (@matched_run_drains_table demo
           [NStarted (insert_cats "test"); NStarted (ping "test"); NEnded end_of_7;
            NEnded end_of_8]
           (demo_state [Some 5000%Q; None])); reflexivity.
Defined.

Lemma table_invariant_kept_witness :
  @table_inv demo
    (@handle_all demo
       [NStarted (insert_cats "test"); NStarted (insert_cats "test"); NEnded end_of_7;
        NEnded end_of_7]
       (demo_state [Some 5000%Q; Some 6000%Q])).
Proof.
  apply (@table_invariant_kept demo).
  apply table_inv_empty. reflexivity.
Defined.

Lemma no_span_ended_twice_witness :
  @ended_at_most_once demo
    (@handle_all demo
       [NStarted (insert_cats "test"); NEnded end_of_7; NEnded end_of_7;
        NStarted (insert_cats "test"); NEnded end_of_7]
       (demo_state [Some 5000%Q; Some 6000%Q])).
Proof.
  apply (@no_span_ended_twice demo).
  - apply table_inv_empty. reflexivity.
  - apply ended_at_most_once_empty. reflexivity.
Defined.


Lemma connectionId_ignored_when_address_given_witness :
  spans
    (@onStart demo
       {| address := VStr "not-an-address"; connectionId := VStr "127.0.0.1:27017";
          requestId := 7; databaseName := "test"; commandName := "ping";
          command := {[ "ping" := VNum 1 ]} |} (demo_state [Some 5000%Q])) =
  spans
    (@onStart demo
       {| address := VStr "not-an-address"; connectionId := VUndef;
          requestId := 7; databaseName := "test"; commandName := "ping";
          command := {[ "ping" := VNum 1 ]} |} (demo_state [Some 5000%Q])).
Proof.
  exact (proj1 (proj2
    (@connectionId_ignored_when_address_given demo (VStr "not-an-address")
       (VStr "127.0.0.1:27017") VUndef 7 "test" "ping" {[ "ping" := VNum 1 ]}
       (demo_state [Some 5000%Q]) eq_refl))).
Defined.

Lemma connectionId_used_when_address_missing_witness :
  spans
    (@onStart demo
       {| address := VUndef; connectionId := VStr "127.0.0.1:27017";
          requestId := 7; databaseName := "test"; commandName := "ping";
          command := {[ "ping" := VNum 1 ]} |} (demo_state [Some 5000%Q])) =
  spans
    (@onStart demo
       {| address := VStr "127.0.0.1:27017"; connectionId := VStr "127.0.0.1:27017";
          requestId := 7; databaseName := "test"; commandName := "ping";
          command := {[ "ping" := VNum 1 ]} |} (demo_state [Some 5000%Q])).
Proof.
  exact (proj1 (proj2
    (@connectionId_used_when_address_missing demo VUndef
       (VStr "127.0.0.1:27017") 7 "test" "ping" {[ "ping" := VNum 1 ]}
       (demo_state [Some 5000%Q]) eq_refl))).
Defined.

Lemma notifications_handled_once_witness :
  @emit demo (@module_exports demo demo_mongodb3 "4.2.1" (VBool true) (demo_state [])).1
    "started" (NStarted (insert_cats "test")) (demo_state [Some 5000%Q]) =
  @onStart demo (insert_cats "test") (demo_state [Some 5000%Q]).
Proof.
  refine (proj1
    (@notifications_handled_once demo demo_mongodb3 "4.2.1" (VBool true) (demo_state [])
       (insert_cats "test") end_of_7 "closed" (NEnded end_of_7) (demo_state [Some 5000%Q])
       eq_refl eq_refl eq_refl eq_refl _ _ _)); discriminate.
Defined.

Lemma promise_style_effect_witness :
  (@wrappedCollectionApi demo silent_op "insertOne" cats [VObj ∅]
     (demo_state [Some 5000%Q])).2 = Return VUndef /\
  (exists s,
     spans (@wrappedCollectionApi (demo_with_url true) silent_op "insertOne" cats_of_client
              [VObj ∅] (@mkState (demo_with_url true) [Some 5000%Q] ∅ [] [] [])).1
       !! 0%nat = Some s /\
     @_destination (demo_with_url true) s = Some ("localhost", "27017") /\
     ended s = [None]) /\
  (exists s,
     spans (@wrappedCollectionApi (demo_with_url false) silent_op "insertOne" cats_of_client
              [VObj ∅] (@mkState (demo_with_url false) [Some 5000%Q] ∅ [] [] [])).1
       !! 0%nat = Some s /\
     @_destination (demo_with_url false) s = None /\
     ended s = [None]) /\
  length
    (logger (@wrappedCollectionApi (demo_with_url false) silent_op "insertOne" cats_of_client
               [VObj ∅] (@mkState (demo_with_url false) [Some 5000%Q] ∅ [] [] [])).1)
    = 1%nat.
Proof.
  split; [|split; [|split]].
  - refine (eq_trans (f_equal snd
      (@promise_style_effect demo silent_op "insertOne" cats [VObj ∅]
         (demo_state [Some 5000%Q]) [] 5000%Q eq_refl _)) eq_refl).
    intros f L. discriminate L.
  - rewrite (@promise_style_effect (demo_with_url true) silent_op "insertOne" cats_of_client
               [VObj ∅] (@mkState (demo_with_url true) [Some 5000%Q] ∅ [] [] []) [] 5000%Q
               eq_refl ltac:(intros f L; discriminate L)).
    eexists. split; [reflexivity|]. split; reflexivity.
  - rewrite (@promise_style_effect (demo_with_url false) silent_op "insertOne" cats_of_client
               [VObj ∅] (@mkState (demo_with_url false) [Some 5000%Q] ∅ [] [] []) [] 5000%Q
               eq_refl ltac:(intros f L; discriminate L)).
    eexists. split; [reflexivity|]. split; reflexivity.
  - rewrite (@promise_style_effect (demo_with_url false) silent_op "insertOne" cats_of_client
               [VObj ∅] (@mkState (demo_with_url false) [Some 5000%Q] ∅ [] [] []) [] 5000%Q
               eq_refl ltac:(intros f L; discriminate L)).
    reflexivity.
Defined.

Lemma callback_style_ends_per_invocation_witness :
  exists s,
    spans (@wrappedCollectionApi demo twice_op "insertOne" cats [VObj ∅; VFun (UserFn 0)]
             (demo_state [Some 5000%Q])).1 !! 0%nat = Some s /\
    ended s = [None; None].
Proof.
  exact (proj2 (proj2 (proj2 (proj2
    (@callback_style_ends_per_invocation demo twice_op "insertOne" cats
       [VObj ∅; VFun (UserFn 0)] (demo_state [Some 5000%Q]) [] 5000%Q (UserFn 0)
       eq_refl eq_refl (Forall_nil_2 _)))))).
Defined.

Lemma wrappedCollection_wraps_listed_only_witness :
  wrappedCollection demo_coll !! "insertOne" = Some (SFun (Wrapped W_wrapCollectionApi Original)) /\
  wrappedCollection demo_coll !! "find" = Some (SFun (Wrapped W_wrapFind Original)) /\
  wrappedCollection demo_coll !! "s" = Some (SVal VNull) /\
  wrappedCollection demo_coll !! "updateOne" = None.
Proof.
  destruct (wrappedCollection_wraps_listed_only demo_coll) as (A & B & C & D & _).
  split; [apply B; [apply (bool_decide_unpack _); by vm_compute | reflexivity]|].
  split; [apply C; reflexivity|].
  split; [apply (D "s"); reflexivity | apply (D "updateOne"); reflexivity].
Defined.

Lemma onStart_onEnd_interleaved_witness :
  exists s,
    spans (@onEnd demo end_of_7
             (fold_left (fun st n => @handle demo n st)
                [NStarted (ping "test"); NEnded end_of_8]
                (@onStart demo (insert_cats "test") (demo_state [Some 5000%Q; Some 6000%Q]))))
      !! 0%nat = Some s /\
    ended s = [Some (5000 / 1000 + 3)%Q].
Proof.
  refine (proj2
    (@onStart_onEnd_interleaved demo (insert_cats "test")
       [NStarted (ping "test"); NEnded end_of_8] end_of_7
       (demo_state [Some 5000%Q; Some 6000%Q]) [Some 6000%Q] 5000%Q _ eq_refl _ eq_refl)).
  - apply table_inv_empty. reflexivity.
  - repeat constructor; discriminate.
Defined.
